(** * Gujarati tokenizer (lab1/gujarati_tokenizer.py)

    A shallow embedding of the tokenizer engine (regular-expression
    patterns, [sentence_tokenize], [word_tokenize], [classify_token],
    [tokenize_paragraph]) and of the corpus aggregator
    ([process_dataset], [compute_corpus_statistics]).

    Python strings are lists of code points.  The regular expressions of
    the source are kept as syntax trees and run by a backtracking matcher
    with the priorities of Python's [re] engine (leftmost alternative
    first, greedy repetition, first successful path wins).  Python
    numbers are integers and IEEE 754 binary64 floats.  A function that
    can raise returns an option.  Console output and the files written
    by [save_tokenized_data] are not modelled. *)

From Stdlib Require Import String Ascii.
From Stdlib Require Import ZArith List Bool Lia QArith.
From Stdlib Require Import Floats.SpecFloat.
From Stdlib Require Import Sorting.Permutation.
Import ListNotations.

Local Open Scope Z_scope.

(** ** Strings *)

Definition char := Z.
Definition pystr := list char.

Definition chr (a : ascii) : char := Z.of_N (N_of_ascii a).
Definition str (s : string) : pystr := map chr (list_ascii_of_string s).

Definition pystr_eq_dec : forall a b : pystr, {a = b} + {a <> b} :=
  list_eq_dec Z.eq_dec.

(** ** Unicode properties used by [re] and [str.strip]

    [\s] and [str.strip] use [Py_UNICODE_ISSPACE]; [\d] uses
    [Py_UNICODE_ISDECIMAL]; [\b] uses [Py_UNICODE_ISALNUM] or an
    underscore.  The whitespace table is written out in full.  The
    decimal and alphanumeric tables are written out for the code points
    the tokenizer's patterns name (ASCII, the Devanagari dandas
    U+0964-0965, the Gujarati block U+0A80-0AFF, the dashes
    U+2013-2014); for every other code point they are a parameter, of
    which only that decimal digits are alphanumeric is known. *)

Definition in_range (lo hi c : char) : bool := (lo <=? c) && (c <=? hi).

Definition in_ranges (rows : list (char * char)) (c : char) : bool :=
  existsb (fun r => in_range (fst r) (snd r) c) rows.

Definition Py_UNICODE_ISSPACE (c : char) : bool :=
  in_ranges [(0x9, 0xD); (0x1C, 0x20); (0x85, 0x85); (0xA0, 0xA0);
             (0x1680, 0x1680); (0x2000, 0x200A); (0x2028, 0x2029);
             (0x202F, 0x202F); (0x205F, 0x205F); (0x3000, 0x3000)] c.

Definition tabulated (c : char) : bool :=
  in_ranges [(0, 0x7F); (0x964, 0x965); (0xA80, 0xAFF); (0x2013, 0x2014)] c.

Definition decimal_rows : list (char * char) :=
  [(0x30, 0x39); (0xAE6, 0xAEF)].

Definition alnum_rows : list (char * char) :=
  [(0x30, 0x39); (0x41, 0x5A); (0x61, 0x7A);
   (0xA85, 0xA8D); (0xA8F, 0xA91); (0xA93, 0xAA8); (0xAAA, 0xAB0);
   (0xAB2, 0xAB3); (0xAB5, 0xAB9); (0xABD, 0xABD); (0xAD0, 0xAD0);
   (0xAE0, 0xAE1); (0xAE6, 0xAEF); (0xAF9, 0xAF9)].

Class UnicodeData := {
  decimal_elsewhere : char -> bool;
  alnum_elsewhere : char -> bool;
  (* a decimal digit is alphanumeric *)
  decimal_alnum_elsewhere :
    forall c, decimal_elsewhere c = true -> alnum_elsewhere c = true
}.

(** A table with no further decimal or alphanumeric code points; used
    where a statement needs one concrete table. *)
Definition rows_only : UnicodeData :=
  {| decimal_elsewhere := fun _ => false;
     alnum_elsewhere := fun _ => false;
     decimal_alnum_elsewhere := fun _ H => H |}.

Section Engine.

Context {ucd : UnicodeData}.

Definition Py_UNICODE_ISDECIMAL (c : char) : bool :=
  if tabulated c then in_ranges decimal_rows c else decimal_elsewhere c.

Definition Py_UNICODE_ISALNUM (c : char) : bool :=
  if tabulated c then in_ranges alnum_rows c else alnum_elsewhere c.

(** [SRE_UNI_IS_WORD] *)
Definition is_word (c : char) : bool :=
  Py_UNICODE_ISALNUM c || (c =? chr "_").

(** ** Regular expressions

    The constructors follow the opcodes the patterns of the source
    compile to.  Every quantifier of the source applies to a single
    character or character class, so repetition is over a class. *)

Inductive cset_item :=
| CChar (c : char)
| CRange (lo hi : char)
| CSpace
| CDigit.

Record cset := { negate : bool; items : list cset_item }.

Inductive regex :=
| In_ (cs : cset)
| Repeat (cs : cset) (lo : nat) (hi : option nat)
| Cat (r1 r2 : regex)
| Branch (r1 r2 : regex)
| At_boundary
| At_beginning
| At_end.

Definition item_mem (i : cset_item) (c : char) : bool :=
  match i with
  | CChar x => c =? x
  | CRange lo hi => in_range lo hi c
  | CSpace => Py_UNICODE_ISSPACE c
  | CDigit => Py_UNICODE_ISDECIMAL c
  end.

Definition cset_mem (cs : cset) (c : char) : bool :=
  xorb (negate cs) (existsb (fun i => item_mem i c) (items cs)).

(** [\b]: the characters before and after the position differ in
    word-ness; outside the string counts as a non-word character. *)
Definition at_boundary (p : option char) (s : pystr) : bool :=
  xorb (match p with Some c => is_word c | None => false end)
       (match s with c :: _ => is_word c | [] => false end).

(** [$]: at the end, or before a final newline. *)
Definition at_end (s : pystr) : bool :=
  match s with
  | [] => true
  | [c] => c =? 10
  | _ => false
  end.

(** ** The backtracking matcher

    A position is the character before it ([None] at the beginning of
    the string) and the characters after it.  The matcher takes the
    continuation to run after the expression; the first path on which the
    continuation succeeds is the result. *)

Section Matcher.

Context {A : Type}.

Definition cont := option char -> pystr -> option A.

Definition orelse (x y : option A) : option A :=
  match x with Some _ => x | None => y end.

Fixpoint repeat_one (cs : cset) (lo : nat) (hi : option nat)
    (p : option char) (s : pystr) (k : cont) {struct s} : option A :=
  let stop := match lo with O => k p s | S _ => None end in
  match hi with
  | Some O => stop
  | _ =>
      match s with
      | c :: tl =>
          if cset_mem cs c
          then orelse (repeat_one cs (pred lo) (option_map pred hi) (Some c) tl k) stop
          else stop
      | [] => stop
      end
  end.

Fixpoint rmatch (r : regex) (p : option char) (s : pystr) (k : cont)
    {struct r} : option A :=
  match r with
  | In_ cs =>
      match s with
      | c :: tl => if cset_mem cs c then k (Some c) tl else None
      | [] => None
      end
  | Repeat cs lo hi => repeat_one cs lo hi p s k
  | Cat r1 r2 => rmatch r1 p s (fun p' s' => rmatch r2 p' s' k)
  | Branch r1 r2 => orelse (rmatch r1 p s k) (rmatch r2 p s k)
  | At_boundary => if at_boundary p s then k p s else None
  | At_beginning => match p with None => k p s | Some _ => None end
  | At_end => if at_end s then k p s else None
  end.

End Matcher.

(** One match attempt at a position: the number of characters the first
    successful path consumes.  With [must_advance] an empty match is not
    a success. *)
Definition match_here (must_advance : bool) (r : regex)
    (p : option char) (s : pystr) : option nat :=
  rmatch r p s
    (fun _ s' =>
       let n := (length s - length s')%nat in
       if must_advance && Nat.eqb n 0 then None else Some n).

(** [re.match(pattern, string)] as a truth value. *)
Definition re_match (r : regex) (s : pystr) : bool :=
  match match_here false r None s with Some _ => true | None => false end.

(** A pattern of the shape [(r0)|(r1)|...] is kept as the list of its
    branches; the result names the branch that matched. *)
Fixpoint match_groups (must_advance : bool) (gs : list regex) (i : nat)
    (p : option char) (s : pystr) : option (nat * nat) :=
  match gs with
  | [] => None
  | g :: gs' =>
      match match_here must_advance g p s with
      | Some n => Some (i, n)
      | None => match_groups must_advance gs' (S i) p s
      end
  end.

(** ** Scanning: the loop shared by [findall] and [split]

    Both search for the leftmost match from the current position, record
    it, and continue from its end; after an empty match the next attempt
    at the same position must advance.  [scan] walks the text once:
    [skip] counts the characters still inside the last match and [gap]
    holds (reversed) the text since the last match.  The result lists
    each match with the gap before it and its branch, and the text after
    the last match. *)

Section Scan.

Variable here : bool -> option char -> pystr -> option (nat * nat).

Definition found := (pystr * nat * pystr)%type.

Definition emit (f : found) (r : list found * pystr) : list found * pystr :=
  (f :: fst r, snd r).

Fixpoint scan (p : option char) (s : pystr) (skip : nat) (gap : pystr)
    {struct s} : list found * pystr :=
  match s with
  | [] =>
      match skip, here false p [] with
      | O, Some (g, _) => ([(rev gap, g, [])], [])
      | _, _ => ([], rev gap)
      end
  | c :: tl =>
      match skip with
      | S j => scan (Some c) tl j gap
      | O =>
          match here false p s with
          | Some (g, S n) =>
              emit (rev gap, g, firstn (S n) s) (scan (Some c) tl n [])
          | Some (g, O) =>
              emit (rev gap, g, [])
                (match here true p s with
                 | Some (g', S n') =>
                     emit ([], g', firstn (S n') s) (scan (Some c) tl n' [])
                 | _ => scan (Some c) tl 0 [c]
                 end)
          | None => scan (Some c) tl 0 (c :: gap)
          end
      end
  end.

End Scan.

(** [pattern.findall(text)] for a pattern of [n] groups [(r0)|(r1)|...]:
    one tuple per match, holding the matched text in the slot of the
    branch that matched and the empty string elsewhere. *)
Definition group_tuple (n g : nat) (t : pystr) : list pystr :=
  map (fun i => if Nat.eqb i g then t else []) (seq 0 n).

Definition findall (gs : list regex) (text : pystr) : list (list pystr) :=
  map (fun f => group_tuple (length gs) (snd (fst f)) (snd f))
      (fst (scan (fun adv => match_groups adv gs 0) None text 0 [])).

(** [pattern.split(text)] for a pattern without groups: the gaps. *)
Definition split (r : regex) (text : pystr) : list pystr :=
  let res := scan (fun adv => match_groups adv [r] 0) None text 0 [] in
  map (fun f => fst (fst f)) (fst res) ++ [snd res].

(** [str.strip()] *)
Fixpoint lstrip (s : pystr) : pystr :=
  match s with
  | c :: tl => if Py_UNICODE_ISSPACE c then lstrip tl else s
  | [] => []
  end.

Definition rstrip (s : pystr) : pystr := rev (lstrip (rev s)).

Definition strip (s : pystr) : pystr := rstrip (lstrip s).

(** Truth value of a string: non-empty. *)
Definition truthy (s : pystr) : bool :=
  match s with [] => false | _ :: _ => true end.

(** ** [GujaratiTokenizer.__init__]: the patterns *)

Definition class (l : list cset_item) : cset := {| negate := false; items := l |}.
Definition not_class (l : list cset_item) : cset := {| negate := true; items := l |}.
Definition chars (s : string) : list cset_item := map CChar (str s).
Definition lit (a : ascii) : regex := In_ (class [CChar (chr a)]).
Definition lits (s : string) : list regex :=
  map (fun c => In_ (class [CChar c])) (str s).
Definition plus (cs : cset) : regex := Repeat cs 1 None.
Definition star (cs : cset) : regex := Repeat cs 0 None.
Definition cat (rs : list regex) (last : regex) : regex := fold_right Cat last rs.

Definition AZ : cset_item := CRange (chr "A") (chr "Z").
Definition az : cset_item := CRange (chr "a") (chr "z").
Definition d09 : cset_item := CRange (chr "0") (chr "9").
Definition digit : cset := class [CDigit].
Definition space : cset := class [CSpace].
Definition non_space : cset := not_class [CSpace].

(** [[઀-૿]] *)
Definition gujarati_char_pattern : cset := class [CRange 0xA80 0xAFF].

(** [\b[A-Za-z0-9._%+-]+@[A-Za-z0-9.-]+\.[A-Z|a-z]{2,}\b] *)
Definition pat_email : regex :=
  cat [At_boundary;
       plus (class ([AZ; az; d09] ++ chars "._%+-"));
       lit "@";
       plus (class ([AZ; az; d09] ++ chars ".-"));
       lit ".";
       Repeat (class ([AZ] ++ chars "|" ++ [az])) 2 None]
      At_boundary.

(** [https?://[^\s]+|www\.[^\s]+|\b[a-zA-Z0-9.-]+\.[a-zA-Z]{2,}[^\s]*] *)
Definition pat_url : regex :=
  Branch
    (cat (lits "http" ++ [Repeat (class (chars "s")) 0 (Some 1%nat)] ++ lits "://")
         (plus non_space))
    (Branch
       (cat (lits "www" ++ [lit "."]) (plus non_space))
       (cat [At_boundary;
             plus (class ([az; AZ; d09] ++ chars ".-"));
             lit ".";
             Repeat (class [az; AZ]) 2 None]
            (star non_space))).

(** [\b\d+\.\d+\b] *)
Definition pat_decimal_number : regex :=
  cat [At_boundary; plus digit; lit "."; plus digit] At_boundary.

(** [\b\d+\b] *)
Definition pat_integer : regex :=
  cat [At_boundary; plus digit] At_boundary.

(** [\b\d{1,2}[/-]\d{1,2}[/-]\d{2,4}\b|\b\d{4}[/-]\d{1,2}[/-]\d{1,2}\b] *)
Definition pat_date : regex :=
  let sep := In_ (class (chars "/-")) in
  Branch
    (cat [At_boundary; Repeat digit 1 (Some 2%nat); sep;
          Repeat digit 1 (Some 2%nat); sep; Repeat digit 2 (Some 4%nat)]
         At_boundary)
    (cat [At_boundary; Repeat digit 4 (Some 4%nat); sep;
          Repeat digit 1 (Some 2%nat); sep; Repeat digit 1 (Some 2%nat)]
         At_boundary).

(** The punctuation class, in the order the source lists it: the dandas
    U+0964 and U+0965, [.,!?;:], the double quote (34), ['()[]{}-], the
    dashes U+2013 and U+2014, and [_/\@#$%^&*+=<>|`~]. *)
Definition punctuation_codes : pystr :=
  [0x964; 0x965] ++ str ".,!?;:" ++ [34] ++ str "'()[]{}-"
  ++ [0x2013; 0x2014] ++ str "_/\@#$%^&*+=<>|`~".

Definition pat_punctuation : regex := In_ (class (map CChar punctuation_codes)).

Definition pat_gujarati_word : regex := plus gujarati_char_pattern.

(** [[A-Za-z]+] *)
Definition pat_english_word : regex := plus (class [AZ; az]).

(** [\s+] *)
Definition pat_whitespace : regex := plus space.

(** [self.patterns], a dictionary, in insertion order. *)
Definition patterns : list (string * regex) :=
  [("email"%string, pat_email);
   ("url"%string, pat_url);
   ("decimal_number"%string, pat_decimal_number);
   ("integer"%string, pat_integer);
   ("date"%string, pat_date);
   ("punctuation"%string, pat_punctuation);
   ("gujarati_word"%string, pat_gujarati_word);
   ("english_word"%string, pat_english_word);
   ("whitespace"%string, pat_whitespace)].

(** [self.token_pattern]: ['|'.join(f'({pattern})' ...)] over the
    dictionary's values. *)
Definition token_pattern : list regex := map snd patterns.

(** [[।॥.!?]+\s*] *)
Definition terminator_codes : pystr := [0x964; 0x965] ++ str ".!?".

Definition sentence_terminators : cset := class (map CChar terminator_codes).

Definition sentence_pattern : regex :=
  Cat (plus sentence_terminators) (star space).

(** [^\s+$], the test for a pure whitespace token *)
Definition pure_whitespace : regex :=
  cat [At_beginning; plus space] At_end.

(** ** The tokenizer's methods *)

Definition sentence_tokenize (text : pystr) : list pystr :=
  map strip (filter (fun s => truthy (strip s)) (split sentence_pattern (strip text))).

(** [next(group for group in match if group)]: the first non-empty
    group; [None] stands for the StopIteration of an exhausted
    generator. *)
Definition next_nonempty (groups : list pystr) : option pystr :=
  find truthy groups.

(** The loop of [word_tokenize] over the matches. *)
Fixpoint collect_tokens (matches : list (list pystr)) (tokens : list pystr)
    : option (list pystr) :=
  match matches with
  | [] => Some tokens
  | m :: rest =>
      match next_nonempty m with
      | None => None
      | Some token =>
          if negb (re_match pure_whitespace token)
          then collect_tokens rest (tokens ++ [token])
          else collect_tokens rest tokens
      end
  end.

Definition word_tokenize (text : pystr) : option (list pystr) :=
  collect_tokens (findall token_pattern text) [].

Definition classify_token (token : pystr) : string :=
  if re_match pat_email token then "email"
  else if re_match pat_url token then "url"
  else if re_match pat_decimal_number token then "decimal_number"
  else if re_match pat_date token then "date"
  else if re_match pat_integer token then "integer"
  else if re_match pat_punctuation token then "punctuation"
  else if re_match pat_gujarati_word token then "gujarati_word"
  else if re_match pat_english_word token then "english_word"
  else "other".

End Engine.


(** ** Document results *)

Record Sentence := {
  text : pystr;
  words : list pystr;
  classified_words : list (pystr * string);
  word_count : Z
}.

Record Document := {
  original_text : pystr;
  sentences : list Sentence;
  total_words : Z;
  total_characters : Z
}.

Definition len {A : Type} (l : list A) : Z := Z.of_nat (length l).

Section Paragraph.

Context {ucd : UnicodeData}.

(** The loop of [tokenize_paragraph] over the sentences. *)
Fixpoint tokenize_sentences (todo : list pystr) (result : Document)
    : option Document :=
  match todo with
  | [] => Some result
  | sentence :: rest =>
      match word_tokenize sentence with
      | None => None
      | Some ws =>
          tokenize_sentences rest
            {| original_text := original_text result;
               sentences :=
                 sentences result ++
                 [{| text := sentence;
                     words := ws;
                     classified_words := map (fun word => (word, classify_token word)) ws;
                     word_count := len ws |}];
               total_words := total_words result + len ws;
               total_characters := total_characters result |}
      end
  end.

Definition tokenize_paragraph (paragraph : pystr) : option Document :=
  tokenize_sentences (sentence_tokenize paragraph)
    {| original_text := paragraph;
       sentences := [];
       total_words := 0;
       total_characters := len paragraph |}.

(** ** [process_dataset]

    A record of the dataset is the value of its ['text'] key, if it has
    one ([example.get('text', '')]); [max_examples] is passed
    explicitly (the source defaults it to 1000).  The progress messages
    are not modelled. *)
Definition get_text (example : option pystr) : pystr :=
  match example with Some t => t | None => [] end.

Fixpoint process_loop (dataset : list (option pystr)) (i max_examples : Z)
    (processed_data : list Document) : option (list Document) :=
  match dataset with
  | [] => Some processed_data
  | example :: rest =>
      if i >=? max_examples then Some processed_data
      else
        let text := get_text example in
        if negb (truthy (strip text))
        then process_loop rest (i + 1) max_examples processed_data
        else
          match tokenize_paragraph text with
          | None => None
          | Some tokenized =>
              process_loop rest (i + 1) max_examples (processed_data ++ [tokenized])
          end
  end.

Definition process_dataset (dataset : list (option pystr)) (max_examples : Z)
    : option (list Document) :=
  process_loop dataset 0 max_examples [].

End Paragraph.

(** ** Python numbers

    A float is an IEEE 754 binary64 value.  [a / b] on integers is the
    correctly rounded quotient, and fails on a zero divisor (the
    OverflowError of a quotient beyond the binary64 range, which needs a
    count above 2^1023, is not modelled).  [round(x, n)] on a float
    rounds the exact value of [x] to [n] decimals, half to even, and
    returns the float nearest to that decimal; on an integer with
    [n >= 0] it returns the integer. *)

Inductive pynum :=
| PyInt (z : Z)
| PyFloat (f : spec_float).

Definition prec : Z := 53.
Definition emax : Z := 1024.

Definition float_of_int (z : Z) : spec_float :=
  match z with
  | Z0 => S754_zero false
  | Zpos m => S754_finite false m 0
  | Zneg m => S754_finite true m 0
  end.

Definition int_truediv (a b : Z) : option spec_float :=
  if b =? 0 then None
  else Some (SFdiv prec emax (float_of_int a) (float_of_int b)).

(** The integer nearest to [a / b] for [b > 0], ties to even. *)
Definition round_half_even (a b : Z) : Z :=
  let q := a / b in
  match 2 * (a mod b) ?= b with
  | Lt => q
  | Gt => q + 1
  | Eq => if Z.even q then q else q + 1
  end.

Definition double_round (x : spec_float) (ndigits : Z) : spec_float :=
  match x with
  | S754_finite s m e =>
      let scale := 10 ^ ndigits in
      let n :=
        match e with
        | Zneg d => round_half_even (Zpos m * scale) (2 ^ Zpos d)
        | _ => Zpos m * 2 ^ e * scale
        end in
      if n =? 0 then S754_zero s
      else SFdiv prec emax (float_of_int (if s then - n else n)) (float_of_int scale)
  | _ => x
  end.

Definition round (x : pynum) (ndigits : Z) : pynum :=
  match x with
  | PyInt z => PyInt z
  | PyFloat f => PyFloat (double_round f ndigits)
  end.

(** The exact value of a finite float, as a rational: [m * 2 ^ e], with
    its sign. *)
Definition magnitude (m : positive) (e : Z) : Q :=
  match e with
  | Zneg d => Qmake (Zpos m) (2 ^ d)
  | _ => inject_Z (Zpos m * 2 ^ e)
  end.

Definition float_value (x : spec_float) : Q :=
  match x with
  | S754_finite s m e => if s then Qopp (magnitude m e) else magnitude m e
  | _ => 0%Q
  end.

Definition value (x : pynum) : Q :=
  match x with
  | PyInt z => inject_Z z
  | PyFloat f => float_value f
  end.

(** ** [compute_corpus_statistics] *)

Record Counters := {
  c_total_sentences : Z;
  c_total_words : Z;
  c_total_characters : Z;
  c_all_words : list pystr
}.

(** The statistics dictionary, one field per key. *)
Record Statistics := {
  total_number_of_sentences : Z;
  total_number_of_words : Z;
  total_number_of_characters : Z;
  average_sentence_length : pynum;
  average_word_length : pynum;
  type_token_ratio : pynum;
  total_unique_words : Z
}.

(** Body of the inner loop, over the sentences of a document. *)
Definition count_sentence (c : Counters) (sentence : Sentence) : Counters :=
  let sentence_words := words sentence in
  {| c_total_sentences := c_total_sentences c + 1;
     c_total_words := c_total_words c + len sentence_words;
     c_total_characters := c_total_characters c;
     c_all_words := c_all_words c ++ sentence_words |}.

(** Body of the outer loop, over the documents. *)
Definition count_document (c : Counters) (document : Document) : Counters :=
  fold_left count_sentence (sentences document)
    {| c_total_sentences := c_total_sentences c;
       c_total_words := c_total_words c;
       c_total_characters := c_total_characters c + total_characters document;
       c_all_words := c_all_words c |}.

(** [x / y if y > 0 else 0] *)
Definition guarded_ratio (x y : Z) : option pynum :=
  if y >? 0 then option_map PyFloat (int_truediv x y) else Some (PyInt 0).

Definition compute_corpus_statistics (processed_data : list Document)
    : option Statistics :=
  let c := fold_left count_document processed_data
             {| c_total_sentences := 0; c_total_words := 0;
                c_total_characters := 0; c_all_words := [] |} in
  match guarded_ratio (c_total_words c) (c_total_sentences c) with
  | None => None
  | Some avg_sentence_length =>
      let total_word_chars := fold_left Z.add (map len (c_all_words c)) 0 in
      match guarded_ratio total_word_chars (c_total_words c) with
      | None => None
      | Some avg_word_length =>
          let unique_words := nodup pystr_eq_dec (c_all_words c) in
          match guarded_ratio (len unique_words) (c_total_words c) with
          | None => None
          | Some ttr =>
              Some {| total_number_of_sentences := c_total_sentences c;
                      total_number_of_words := c_total_words c;
                      total_number_of_characters := c_total_characters c;
                      average_sentence_length := round avg_sentence_length 2;
                      average_word_length := round avg_word_length 2;
                      type_token_ratio := round ttr 4;
                      total_unique_words := len unique_words |}
          end
      end
  end.

(** ** Definitions used to state the properties *)

(** The character before the position reached after consuming [pre]. *)
Fixpoint advance (p : option char) (pre : pystr) : option char :=
  match pre with
  | [] => p
  | c :: tl => advance (Some c) tl
  end.

(** The least number of characters an expression consumes. *)
Fixpoint min_width (r : regex) : nat :=
  match r with
  | In_ _ => 1
  | Repeat _ lo _ => lo
  | Cat r1 r2 => min_width r1 + min_width r2
  | Branch r1 r2 => Nat.min (min_width r1) (min_width r2)
  | At_boundary | At_beginning | At_end => 0
  end.

Section Semantics.

Context {ucd : UnicodeData}.

(** [matches r p pre s']: at the position after [p] and before
    [pre ++ s'], the expression [r] can consume exactly [pre]. *)
Inductive matches : regex -> option char -> pystr -> pystr -> Prop :=
| M_In cs p c s' :
    cset_mem cs c = true -> matches (In_ cs) p [c] s'
| M_Repeat cs lo hi p pre s' :
    forallb (cset_mem cs) pre = true ->
    (lo <= length pre)%nat ->
    (forall h, hi = Some h -> (length pre <= h)%nat) ->
    matches (Repeat cs lo hi) p pre s'
| M_Cat r1 r2 p pre1 pre2 s' :
    matches r1 p pre1 (pre2 ++ s') ->
    matches r2 (advance p pre1) pre2 s' ->
    matches (Cat r1 r2) p (pre1 ++ pre2) s'
| M_Left r1 r2 p pre s' :
    matches r1 p pre s' -> matches (Branch r1 r2) p pre s'
| M_Right r1 r2 p pre s' :
    matches r2 p pre s' -> matches (Branch r1 r2) p pre s'
| M_boundary p s' :
    at_boundary p s' = true -> matches At_boundary p [] s'
| M_beginning s' :
    matches At_beginning None [] s'
| M_end p s' :
    at_end s' = true -> matches At_end p [] s'.

(** The text a scan result stands for: gaps and matches in order. *)
Definition flatten (r : list found * pystr) : pystr :=
  concat (map (fun f => fst (fst f) ++ snd f) (fst r)) ++ snd r.

(** The classification rules in the precedence order of section 3 of
    the specification. *)
Definition precedence_order : list (string * regex) :=
  [("email"%string, pat_email);
   ("url"%string, pat_url);
   ("decimal_number"%string, pat_decimal_number);
   ("date"%string, pat_date);
   ("integer"%string, pat_integer);
   ("punctuation"%string, pat_punctuation);
   ("gujarati_word"%string, pat_gujarati_word);
   ("english_word"%string, pat_english_word)].

Definition categories : list string :=
  ["email"; "url"; "decimal_number"; "integer"; "date"; "punctuation";
   "gujarati_word"; "english_word"; "other"]%string.

(** The character ranges the patterns define. *)
Definition is_gujarati (c : char) : bool := in_range 0xA80 0xAFF c.

Definition is_ascii_letter (c : char) : bool :=
  in_range (chr "A") (chr "Z") c || in_range (chr "a") (chr "z") c.


Definition is_punctuation (c : char) : bool := existsb (Z.eqb c) punctuation_codes.

Definition is_terminator (c : char) : bool := existsb (Z.eqb c) terminator_codes.

(** The ranges whose characters [word_tokenize] always keeps. *)
Definition kept_ranges (c : char) : bool :=
  is_gujarati c || is_ascii_letter c || is_punctuation c.


(** A character that may be left out of the tokens: whitespace, or a
    character outside [range]. *)
Definition skippable (range : char -> bool) (c : char) : bool :=
  Py_UNICODE_ISSPACE c || negb (range c).

(** [covers range text toks]: the text is the tokens, in their order,
    with skipped characters between and around them, and every skipped
    character is whitespace or outside [range].  Every occurrence of a
    non-whitespace character of [range] then lies in a token, at its
    place: a token sequence that drops or merges repeated tokens does
    not cover the text. *)
Inductive covers (range : char -> bool) : pystr -> list pystr -> Prop :=
| covers_nil : covers range [] []
| covers_skip c text toks :
    skippable range c = true ->
    covers range text toks -> covers range (c :: text) toks
| covers_token tok text toks :
    covers range text toks -> covers range (tok ++ text) (tok :: toks).


(** The match attempt of the combined token pattern and of the sentence
    pattern, as [scan] takes it. *)
Definition token_here (adv : bool) : option char -> pystr -> option (nat * nat) :=
  match_groups adv token_pattern 0.

Definition sentence_here (adv : bool) : option char -> pystr -> option (nat * nat) :=
  match_groups adv [sentence_pattern] 0.

(** A token is kept unless it is pure whitespace. *)
Definition kept (token : pystr) : bool := negb (re_match pure_whitespace token).

(** The tokens [word_tokenize] returns, read off the scan: the matched
    texts that are not pure whitespace. *)
Definition tokens_of (s : pystr) : list pystr :=
  filter kept (map snd (fst (scan token_here None s 0 []))).

(** The sentence record [tokenize_paragraph] builds for one sentence. *)
Definition sentence_of (s : pystr) : Sentence :=
  {| text := s;
     words := tokens_of s;
     classified_words := map (fun word => (word, classify_token word)) (tokens_of s);
     word_count := len (tokens_of s) |}.

(** A sentence text as [sentence_tokenize] leaves it: not empty, no
    whitespace at either end, no sentence terminator inside. *)
Definition clean_sentence (s : pystr) : Prop :=
  s <> [] /\
  (forall c, hd_error s = Some c -> Py_UNICODE_ISSPACE c = false) /\
  (forall c, hd_error (rev s) = Some c -> Py_UNICODE_ISSPACE c = false) /\
  (forall c, In c s -> is_terminator c = false).

(** The document [tokenize_paragraph] builds. *)
Definition document_of (paragraph : pystr) : Document :=
  {| original_text := paragraph;
     sentences := map sentence_of (sentence_tokenize paragraph);
     total_words :=
       fold_left (fun n s => n + len (tokens_of s)) (sentence_tokenize paragraph) 0;
     total_characters := len paragraph |}.

(** A record [process_dataset] does not skip. *)
Definition non_blank (example : option pystr) : bool :=
  truthy (strip (get_text example)).

End Semantics.

(** ** The statistics of section 4.2 of the specification *)

Definition all_sentences (data : list Document) : list Sentence :=
  flat_map sentences data.

Definition all_tokens (data : list Document) : list pystr :=
  flat_map words (all_sentences data).

Definition distinct_tokens (data : list Document) : list pystr :=
  nodup pystr_eq_dec (all_tokens data).

(** The sum of the character lengths of all tokens. *)
Definition token_characters (data : list Document) : Z :=
  len (concat (all_tokens data)).

(** The float nearest to [a / b]. *)
Definition float_ratio (a b : Z) : spec_float :=
  SFdiv prec emax (float_of_int a) (float_of_int b).

(** [a / b], and 0 when [b = 0]. *)
Definition ratio_or_zero (a b : Z) : pynum :=
  if b =? 0 then PyInt 0 else PyFloat (float_ratio a b).

(** The three averages as unrounded ratios. *)
Definition unrounded_statistics (data : list Document) (stats : Statistics) : Prop :=
  average_sentence_length stats =
    ratio_or_zero (len (all_tokens data)) (len (all_sentences data)) /\
  average_word_length stats =
    ratio_or_zero (token_characters data) (len (all_tokens data)) /\
  type_token_ratio stats =
    ratio_or_zero (len (distinct_tokens data)) (len (all_tokens data)).

(** [returned] is [exact] at [nd] decimals: for a finite float of
    magnitude [v], the float nearest to [n / 10 ^ nd] where the integer
    [n] is within one half of [v * 10 ^ nd]; any other number is
    returned as it is. *)
Definition rounded_to (nd : Z) (exact returned : pynum) : Prop :=
  match exact with
  | PyFloat (S754_finite s m e) =>
      exists n : Z,
        (Qmake (2 * n - 1) 2 <= magnitude m e * inject_Z (10 ^ nd))%Q /\
        (magnitude m e * inject_Z (10 ^ nd) <= Qmake (2 * n + 1) 2)%Q /\
        returned =
          PyFloat (if n =? 0 then S754_zero s
                   else float_ratio (if s then - n else n) (10 ^ nd))
  | _ => returned = exact
  end.

(** Two small corpora: "a. a. a a" (three sentences, four tokens) and
    "a a a" (one sentence, three tokens, one distinct). *)
Definition corpus_4_3 : list Document :=
  [document_of (ucd := rows_only) (str "a. a. a a")].

Definition corpus_aaa : list Document :=
  [document_of (ucd := rows_only) (str "a a a")].

(** The sample text of the specification,
    "આજે હું દુકાને ગયો. મેં ખાણાની વસ્તુઓ ખરીદી। મારું ઇમેઇલ test@example.com છે."
    and its four pieces, as code points. *)
Definition sample_1 : pystr :=
  [2694; 2716; 2759; 32; 2745; 2753; 2690; 32; 2726; 2753; 2709; 2750; 2728;
   2759; 32; 2711; 2735; 2763].

Definition sample_2 : pystr :=
  [2734; 2759; 2690; 32; 2710; 2750; 2723; 2750; 2728; 2752; 32; 2741; 2744;
   2765; 2724; 2753; 2707; 32; 2710; 2736; 2752; 2726; 2752].

(** "મારું" and "ઇમેઇલ" *)
Definition word_marun : pystr := [2734; 2750; 2736; 2753; 2690].
Definition word_email : pystr := [2695; 2734; 2759; 2695; 2738].

(** "છે" *)
Definition word_chhe : pystr := [2715; 2759].

(** "મારું ઇમેઇલ test@example" and "com છે" *)
Definition sample_3 : pystr :=
  word_marun ++ [32] ++ word_email ++ [32] ++ str "test@example".

Definition sample_4 : pystr := str "com " ++ word_chhe.

Definition sample_text : pystr :=
  sample_1 ++ str ". " ++ sample_2 ++ [0x964; 32] ++ sample_3 ++ str "."
  ++ sample_4 ++ str ".".

(** "મારું ઇમેઇલ test@example.com છે" *)
Definition sample_sentence : pystr :=
  word_marun ++ [32] ++ word_email ++ [32] ++ str "test@example.com" ++ [32]
  ++ word_chhe.

(** ** Further definitions used to state properties *)

(** [interleaved toks s]: the strings [toks] are consecutive pieces of
    [s], in order and without overlap. *)
Inductive interleaved : list pystr -> pystr -> Prop :=
| interleaved_nil s : interleaved [] s
| interleaved_cons gap t toks s :
    interleaved toks s -> interleaved (t :: toks) (gap ++ t ++ s).

(** Cutting a text at every character that satisfies [f]: the
    separators are dropped and empty pieces are kept. *)
Fixpoint split_at (f : char -> bool) (s : pystr) : list pystr :=
  match s with
  | [] => [[]]
  | c :: tl =>
      if f c then [] :: split_at f tl
      else match split_at f tl with
           | p :: ps => (c :: p) :: ps
           | [] => [[c]]
           end
  end.

(** A text of whitespace only (the empty text included). *)
Definition blank (s : pystr) : bool := forallb Py_UNICODE_ISSPACE s.

(** A class that lists literal characters only, none of them in [A]. *)
Definition literal_outside (A : char -> bool) (cs : cset) : bool :=
  negb (negate cs) &&
  forallb (fun i => match i with CChar x => negb (A x) | _ => false end) (items cs).

(** A sufficient test that every match of [r] consumes a character
    outside [A]. *)
Fixpoint needs_outside (A : char -> bool) (r : regex) : bool :=
  match r with
  | In_ cs => literal_outside A cs
  | Repeat cs lo _ => match lo with O => false | S _ => literal_outside A cs end
  | Cat r1 r2 => needs_outside A r1 || needs_outside A r2
  | Branch r1 r2 => needs_outside A r1 && needs_outside A r2
  | At_boundary | At_beginning | At_end => false
  end.

(** A sufficient test that every match of [r] starts with a character
    of a class accepted by [ok]. *)
Fixpoint starts_in (ok : cset -> bool) (r : regex) : bool :=
  match r with
  | In_ cs => ok cs
  | Repeat cs lo _ => match lo with O => false | S _ => ok cs end
  | Cat r1 r2 =>
      starts_in ok r1 ||
      (match r1 with At_boundary | At_beginning | At_end => true | _ => false end
       && starts_in ok r2)
  | Branch r1 r2 => starts_in ok r1 && starts_in ok r2
  | At_boundary | At_beginning | At_end => false
  end.

(** The class [\d] alone. *)
Definition is_digit_class (cs : cset) : bool :=
  match cs with
  | {| negate := false; items := [CDigit] |} => true
  | _ => false
  end.

(** The classes an expression consumes characters from. *)
Fixpoint classes_of (r : regex) : list cset :=
  match r with
  | In_ cs => [cs]
  | Repeat cs _ _ => [cs]
  | Cat r1 r2 | Branch r1 r2 => classes_of r1 ++ classes_of r2
  | At_boundary | At_beginning | At_end => []
  end.

(** The rows of the whitespace table. *)
Definition space_rows : list (char * char) :=
  [(0x9, 0xD); (0x1C, 0x20); (0x85, 0x85); (0xA0, 0xA0);
   (0x1680, 0x1680); (0x2000, 0x200A); (0x2028, 0x2029);
   (0x202F, 0x202F); (0x205F, 0x205F); (0x3000, 0x3000)].

(** A sufficient test that a class holds no whitespace character
    (decimal digits taken not to be whitespace). *)
Definition item_space_free (i : cset_item) : bool :=
  match i with
  | CChar x => negb (Py_UNICODE_ISSPACE x)
  | CRange lo hi => forallb (fun r => (hi <? fst r) || (snd r <? lo)) space_rows
  | CSpace => false
  | CDigit => true
  end.

Definition class_space_free (cs : cset) : bool :=
  if negate cs
  then existsb (fun i => match i with CSpace => true | _ => false end) (items cs)
  else forallb item_space_free (items cs).

(** The sentences read off the pieces between terminators: each piece
    stripped, the empty ones dropped. *)
Definition sentences_between_terminators (t : pystr) : list pystr :=
  filter truthy (map strip (split_at is_terminator t)).

(** The sum of a list of integers. *)
Definition sum (l : list Z) : Z := fold_right Z.add 0 l.

(** The branches of the combined pattern other than whitespace, and
    their match attempt. *)
Definition word_patterns : list regex := firstn 8 token_pattern.

Definition word_here {ucd : UnicodeData} (adv : bool)
    : option char -> pystr -> option (nat * nat) :=
  match_groups adv word_patterns 0.

(** An expression without [^] and [$]. *)
Fixpoint no_line_anchor (r : regex) : bool :=
  match r with
  | At_beginning | At_end => false
  | Cat r1 r2 | Branch r1 r2 => no_line_anchor r1 && no_line_anchor r2
  | In_ _ | Repeat _ _ _ | At_boundary => true
  end.

(** The texts of the matches a scan records. *)
Definition matched (here : bool -> option char -> pystr -> option (nat * nat))
    (p : option char) (s : pystr) (skip : nat) : list pystr :=
  map (fun f : found => snd f) (fst (scan here p s skip [])).

(** The character before a position is a word character. *)
Definition word_before {ucd : UnicodeData} (p : option char) : bool :=
  match p with Some c => is_word c | None => false end.

(** A word of one kind: ASCII letters only, decimal digits only, or
    characters of the Gujarati block only, the first of them not a
    decimal digit. *)
Definition simple_word {ucd : UnicodeData} (w : pystr) : Prop :=
  w <> [] /\
  (forallb is_ascii_letter w = true \/
   forallb Py_UNICODE_ISDECIMAL w = true \/
   (forallb is_gujarati w = true /\
    exists c tl, w = c :: tl /\ Py_UNICODE_ISDECIMAL c = false)).

(** A sufficient test that every match of [r] consumes a character of
    a class accepted by [ok]. *)
Fixpoint needs_class (ok : cset -> bool) (r : regex) : bool :=
  match r with
  | In_ cs => ok cs
  | Repeat cs lo _ => match lo with O => false | S _ => ok cs end
  | Cat r1 r2 => needs_class ok r1 || needs_class ok r2
  | Branch r1 r2 => needs_class ok r1 && needs_class ok r2
  | At_boundary | At_beginning | At_end => false
  end.

(** The class [[a-zA-Z]]. *)
Definition is_letter_class (cs : cset) : bool :=
  match cs with
  | {| negate := false; items := [CRange a b; CRange c d] |} =>
      (a =? chr "a") && (b =? chr "z") && (c =? chr "A") && (d =? chr "Z")
  | _ => false
  end.

(** The separators of the date pattern. *)
Definition is_separator (c : char) : bool := (c =? chr "/") || (c =? chr "-").

Definition decimal_or_dot {ucd : UnicodeData} (c : char) : bool :=
  Py_UNICODE_ISDECIMAL c || (c =? chr ".").

Definition decimal_or_separator {ucd : UnicodeData} (c : char) : bool :=
  Py_UNICODE_ISDECIMAL c || is_separator c.

(** The lengths of the three runs of digits of a date: day, month, year
    or year, month, day. *)
Definition date_shape (a b c : pystr) : Prop :=
  ((1 <= length a <= 2)%nat /\ (1 <= length b <= 2)%nat /\ (2 <= length c <= 4)%nat) \/
  (length a = 4%nat /\ (1 <= length b <= 2)%nat /\ (1 <= length c <= 2)%nat).

(** * Properties *)

(** ** The matcher *)

Section MatcherFacts.

Context {ucd : UnicodeData}.

Lemma advance_app (p : option char) (a b : pystr) :
  advance p (a ++ b) = advance (advance p a) b.
Proof.
  revert p; induction a as [|c a IH]; intros p; simpl; [reflexivity|apply IH].
Qed.

Lemma repeat_one_sound {A : Type} (cs : cset) (k : cont (A := A)) (x : A) :
  forall s lo hi p,
    repeat_one cs lo hi p s k = Some x ->
    exists pre s',
      s = pre ++ s' /\ forallb (cset_mem cs) pre = true /\
      (lo <= length pre)%nat /\
      (forall h, hi = Some h -> (length pre <= h)%nat) /\
      k (advance p pre) s' = Some x.
Proof.
  assert (Hstop : forall s lo (hi : option nat) p,
             match lo with O => k p s | S _ => None end = Some x ->
             exists pre s',
               s = pre ++ s' /\ forallb (cset_mem cs) pre = true /\
               (lo <= length pre)%nat /\
               (forall h, hi = Some h -> (length pre <= h)%nat) /\
               k (advance p pre) s' = Some x).
  { intros s lo hi p H. destruct lo as [|lo]; [|discriminate].
    exists [], s. simpl. repeat split; auto; intros; lia. }
  induction s as [|c tl IH]; intros lo hi p H.
  - apply Hstop. destruct hi as [[|h]|]; exact H.
  - simpl in H.
    assert (Hstep :
      (if cset_mem cs c
       then orelse (repeat_one cs (pred lo) (option_map pred hi) (Some c) tl k)
                   (match lo with O => k p (c :: tl) | S _ => None end)
       else match lo with O => k p (c :: tl) | S _ => None end) = Some x ->
      (forall h, hi = Some h -> h <> O) ->
      exists pre s',
        c :: tl = pre ++ s' /\ forallb (cset_mem cs) pre = true /\
        (lo <= length pre)%nat /\
        (forall h, hi = Some h -> (length pre <= h)%nat) /\
        k (advance p pre) s' = Some x).
    { intros H' Hhi. destruct (cset_mem cs c) eqn:Hc; [|apply Hstop; exact H'].
      destruct (repeat_one cs (pred lo) (option_map pred hi) (Some c) tl k) eqn:Hr.
      - simpl in H'. rewrite H' in Hr.
        destruct (IH _ _ _ Hr) as (pre & s' & -> & Hall & Hlo & Hh & Hk).
        exists (c :: pre), s'. simpl. rewrite Hc, Hall.
        repeat split; auto; [lia|].
        intros h ->. specialize (Hhi h eq_refl).
        specialize (Hh (pred h) eq_refl). lia.
      - simpl in H'. apply Hstop. exact H'. }
    destruct hi as [[|h]|].
    + apply Hstop. exact H.
    + apply Hstep; [exact H|]. intros h' [= <-]. discriminate.
    + apply Hstep; [exact H|]. intros h' [=].
Qed.

Lemma rmatch_sound {A : Type} (r : regex) :
  forall p s (k : cont (A := A)) x,
    rmatch r p s k = Some x ->
    exists pre s',
      s = pre ++ s' /\ matches r p pre s' /\ k (advance p pre) s' = Some x.
Proof.
  induction r as [cs|cs lo hi|r1 IH1 r2 IH2|r1 IH1 r2 IH2| | |];
    intros p s k x H; simpl in H.
  - destruct s as [|c tl]; [discriminate|].
    destruct (cset_mem cs c) eqn:Hc; [|discriminate].
    exists [c], tl. repeat split; auto. constructor; exact Hc.
  - destruct (repeat_one_sound _ _ _ _ _ _ _ H) as (pre & s' & -> & Ha & Hlo & Hh & Hk).
    exists pre, s'. repeat split; auto. constructor; auto.
  - destruct (IH1 _ _ _ _ H) as (pre1 & s1 & -> & M1 & H1).
    destruct (IH2 _ _ _ _ H1) as (pre2 & s2 & -> & M2 & H2).
    exists (pre1 ++ pre2), s2. rewrite <- app_assoc, advance_app.
    repeat split; auto. constructor; auto.
  - destruct (rmatch r1 p s k) eqn:H1; simpl in H.
    + rewrite H in H1. destruct (IH1 _ _ _ _ H1) as (pre & s' & -> & M & Hk).
      exists pre, s'. repeat split; auto. apply M_Left; exact M.
    + destruct (IH2 _ _ _ _ H) as (pre & s' & -> & M & Hk).
      exists pre, s'. repeat split; auto. apply M_Right; exact M.
  - destruct (at_boundary p s) eqn:Hb; [|discriminate].
    exists [], s. repeat split; auto. constructor; exact Hb.
  - destruct p; [discriminate|].
    exists [], s. repeat split; auto. constructor.
  - destruct (at_end s) eqn:He; [|discriminate].
    exists [], s. repeat split; auto. constructor; exact He.
Qed.

Lemma matches_min_width r p pre s' :
  matches r p pre s' -> (min_width r <= length pre)%nat.
Proof.
  induction 1; simpl; try lia.
  rewrite length_app. lia.
Qed.

Lemma match_here_sound adv r p s n :
  match_here adv r p s = Some n ->
  exists pre s',
    s = pre ++ s' /\ matches r p pre s' /\ n = length pre /\
    (adv = true -> n <> O).
Proof.
  unfold match_here. intros H.
  destruct (rmatch_sound _ _ _ _ _ H) as (pre & s' & -> & M & Hk).
  exists pre, s'. rewrite length_app in Hk.
  replace (length pre + length s' - length s')%nat with (length pre) in Hk by lia.
  destruct adv; simpl in Hk.
  - destruct (Nat.eqb (length pre) 0) eqn:E; [discriminate|].
    injection Hk as <-. repeat split; auto.
    intros _. apply Nat.eqb_neq. exact E.
  - injection Hk as <-. repeat split; auto. discriminate.
Qed.

Lemma match_here_firstn adv r p s n :
  match_here adv r p s = Some n ->
  exists s', s = firstn n s ++ s' /\ matches r p (firstn n s) s' /\
             length (firstn n s) = n.
Proof.
  intros H. destruct (match_here_sound _ _ _ _ _ H) as (pre & s' & -> & M & -> & _).
  exists s'. rewrite firstn_app, Nat.sub_diag, firstn_all, firstn_O, app_nil_r.
  repeat split; auto.
Qed.

(** A repetition followed by a continuation that cannot fail succeeds
    as soon as its lower bound is met. *)
Lemma repeat_one_accepting {A : Type} (cs : cset) (k : cont (A := A)) :
  (forall p s, k p s <> None) ->
  forall s hi p, repeat_one cs 0 hi p s k <> None.
Proof.
  intros Hk s. induction s as [|c tl IH]; intros hi p; simpl.
  - destruct hi as [[|h]|]; apply Hk.
  - destruct hi as [[|h]|]; try apply Hk;
      destruct (cset_mem cs c); try apply Hk;
      simpl; match goal with |- orelse ?a _ <> None =>
        destruct a eqn:E; simpl; [discriminate|apply Hk] end.
Qed.

Lemma plus_accepting {A : Type} (cs : cset) (k : cont (A := A)) p c tl :
  (forall p s, k p s <> None) ->
  cset_mem cs c = true ->
  rmatch (plus cs) p (c :: tl) k <> None.
Proof.
  intros Hk Hc. unfold plus. simpl. rewrite Hc.
  destruct (repeat_one cs 0 None (Some c) tl k) eqn:E; simpl; [discriminate|].
  exfalso. exact (repeat_one_accepting cs k Hk _ _ _ E).
Qed.

Lemma match_groups_sound adv gs :
  forall i p s g n,
    match_groups adv gs i p s = Some (g, n) ->
    (i <= g < i + length gs)%nat /\
    exists r, nth_error gs (g - i) = Some r /\ match_here adv r p s = Some n.
Proof.
  induction gs as [|r gs IH]; intros i p s g n H; simpl in H; [discriminate|].
  destruct (match_here adv r p s) as [m|] eqn:E.
  - injection H as <- <-. simpl. split; [lia|].
    exists r. rewrite Nat.sub_diag. auto.
  - destruct (IH _ _ _ _ _ H) as (Hg & r' & Hn & Hm). simpl. split; [lia|].
    exists r'. replace (g - i)%nat with (S (g - S i)) by lia. auto.
Qed.


End MatcherFacts.

(** ** The scan *)

Section ScanFacts.

Variable here : bool -> option char -> pystr -> option (nat * nat).

Lemma flatten_emit f r :
  flatten (emit f r) = fst (fst f) ++ snd f ++ flatten r.
Proof.
  unfold flatten, emit. simpl. now rewrite <- !app_assoc.
Qed.

(** Nothing is lost: the gaps and the matches, in order, are the text. *)
Lemma scan_flatten :
  forall s p skip gap,
    flatten (scan here p s skip gap) = rev gap ++ skipn skip s.
Proof.
  induction s as [|c tl IH]; intros p skip gap.
  - simpl. destruct skip; [|now rewrite app_nil_r].
    destruct (here false p []) as [[g n]|]; unfold flatten; simpl;
      now rewrite ?app_nil_r.
  - simpl. destruct skip as [|j]; [|apply IH].
    destruct (here false p (c :: tl)) as [[g [|n]]|].
    + rewrite flatten_emit. simpl. f_equal.
      destruct (here true p (c :: tl)) as [[g' [|n']]|];
        rewrite ?flatten_emit, IH; simpl; try reflexivity.
      now rewrite firstn_skipn.
    + rewrite flatten_emit, IH. simpl. now rewrite firstn_skipn.
    + rewrite IH. simpl. now rewrite <- app_assoc.
Qed.

(** Every recorded match is the text of a successful attempt. *)
Lemma scan_found (Pf : nat -> pystr -> Prop) :
  (forall adv p s g n, here adv p s = Some (g, n) -> Pf g (firstn n s)) ->
  forall s p skip gap,
    Forall (fun f => Pf (snd (fst f)) (snd f)) (fst (scan here p s skip gap)).
Proof.
  intros Hh. induction s as [|c tl IH]; intros p skip gap.
  - simpl. destruct skip; [|constructor].
    destruct (here false p []) as [[g n]|] eqn:E; [|constructor].
    constructor; [|constructor]. simpl.
    specialize (Hh _ _ _ _ _ E). now rewrite firstn_nil in Hh.
  - simpl. destruct skip as [|j]; [|apply IH].
    destruct (here false p (c :: tl)) as [[g [|n]]|] eqn:E.
    + constructor; [exact (Hh _ _ _ _ _ E)|].
      destruct (here true p (c :: tl)) as [[g' [|n']]|] eqn:E'; try apply IH.
      constructor; [exact (Hh _ _ _ _ _ E')|apply IH].
    + constructor; [exact (Hh _ _ _ _ _ E)|apply IH].
    + apply IH.
Qed.

(** A character stays in a gap only where no non-empty match starts. *)
Lemma scan_gaps (Q : char -> Prop) :
  (forall p c tl,
      (forall g n, here false p (c :: tl) <> Some (g, S n)) -> Q c) ->
  forall s p skip gap,
    Forall Q gap ->
    Forall (fun f => Forall Q (fst (fst f))) (fst (scan here p s skip gap)) /\
    Forall Q (snd (scan here p s skip gap)).
Proof.
  intros Hq. induction s as [|c tl IH]; intros p skip gap Hgap.
  - assert (Hrev : Forall Q (rev gap)) by (apply Forall_rev; exact Hgap).
    simpl. destruct skip; [|split; [constructor|exact Hrev]].
    destruct (here false p []) as [[g n]|]; simpl; split; auto.
  - assert (Hrev : Forall Q (rev gap)) by (apply Forall_rev; exact Hgap).
    simpl. destruct skip as [|j]; [|apply IH; exact Hgap].
    destruct (here false p (c :: tl)) as [[g [|n]]|] eqn:E.
    + assert (Hc : Q c) by (apply (Hq p c tl); intros g0 n0; rewrite E; discriminate).
      destruct (here true p (c :: tl)) as [[g' [|n']]|] eqn:E'; simpl.
      * destruct (IH (Some c) 0%nat [c]) as [H1 H2]; [auto|]. split; auto.
      * destruct (IH (Some c) n' []) as [H1 H2]; [auto|]. split; auto.
      * destruct (IH (Some c) 0%nat [c]) as [H1 H2]; [auto|]. split; auto.
    + destruct (IH (Some c) n []) as [H1 H2]; [auto|]. simpl. split; auto.
    + assert (Hc : Q c) by (apply (Hq p c tl); intros g0 n0; rewrite E; discriminate).
      apply IH. constructor; auto.
Qed.

End ScanFacts.

(** ** The patterns of the tokenizer *)

Section PatternFacts.

Context {ucd : UnicodeData}.

Lemma existsb_CChar (l : pystr) (c : char) :
  existsb (fun i => item_mem i c) (map CChar l) = existsb (Z.eqb c) l.
Proof.
  induction l as [|x l IH]; simpl; [reflexivity|now rewrite IH].
Qed.

Lemma punctuation_mem c :
  cset_mem (class (map CChar punctuation_codes)) c = is_punctuation c.
Proof. unfold cset_mem, class. cbn [negate items]. now rewrite existsb_CChar. Qed.

Lemma terminator_mem c : cset_mem sentence_terminators c = is_terminator c.
Proof.
  unfold cset_mem, sentence_terminators, class. cbn [negate items].
  now rewrite existsb_CChar.
Qed.

Lemma gujarati_mem c : cset_mem gujarati_char_pattern c = is_gujarati c.
Proof.
  unfold cset_mem, gujarati_char_pattern, class, is_gujarati. simpl.
  now rewrite orb_false_r.
Qed.

Lemma letter_mem c : cset_mem (class [AZ; az]) c = is_ascii_letter c.
Proof.
  unfold cset_mem, class, is_ascii_letter. simpl. now rewrite orb_false_r.
Qed.

Lemma space_mem c : cset_mem space c = Py_UNICODE_ISSPACE c.
Proof. unfold cset_mem, space, class. simpl. now rewrite orb_false_r. Qed.

(** Characters of the kept ranges are not whitespace. *)
Lemma kept_ranges_not_space c :
  kept_ranges c = true -> Py_UNICODE_ISSPACE c = false.
Proof.
  unfold kept_ranges, is_gujarati, is_ascii_letter, is_punctuation,
    Py_UNICODE_ISSPACE, in_ranges, in_range.
  intros H. apply orb_true_iff in H as [H|H];
    [apply orb_true_iff in H as [H|H]|].
  - simpl. apply andb_true_iff in H as [H1 H2].
    apply Z.leb_le in H1, H2.
    repeat (apply orb_false_iff; split); try reflexivity;
      apply andb_false_iff;
      (left; apply Z.leb_gt; lia) || (right; apply Z.leb_gt; lia).
  - cbn in H. apply orb_true_iff in H as [H|H];
      apply andb_true_iff in H as [H1 H2];
      apply Z.leb_le in H1, H2; simpl;
      repeat (apply orb_false_iff; split); try reflexivity;
      apply andb_false_iff;
      (left; apply Z.leb_gt; lia) || (right; apply Z.leb_gt; lia).
  - apply existsb_exists in H as (x & Hin & Hx). apply Z.eqb_eq in Hx. subst x.
    vm_compute in Hin.
    repeat (destruct Hin as [<-|Hin]; [reflexivity|]). contradiction.
Qed.

Lemma terminators_not_space c :
  is_terminator c = true -> Py_UNICODE_ISSPACE c = false.
Proof.
  intros H. apply existsb_exists in H as (x & Hin & Hx).
  apply Z.eqb_eq in Hx. subst x. vm_compute in Hin.
  repeat (destruct Hin as [<-|Hin]; [reflexivity|]). contradiction.
Qed.

(** The final continuation of a plain attempt cannot fail. *)
Lemma final_accepts (s : pystr) :
  forall (p : option char) (s' : pystr),
    (fun (_ : option char) (s' : pystr) =>
       let n := (length s - length s')%nat in
       if false && Nat.eqb n 0 then None else Some n) p s' <> None.
Proof. intros p s'. simpl. discriminate. Qed.

(** Every branch of the token pattern consumes at least one character. *)
Lemma token_pattern_min_width :
  Forall (fun r => (1 <= min_width r)%nat) token_pattern.
Proof. repeat constructor. Qed.

Lemma token_here_sound adv p s g n :
  token_here adv p s = Some (g, n) ->
  (g < length token_pattern)%nat /\ firstn n s <> [].
Proof.
  unfold token_here. intros H.
  destruct (match_groups_sound _ _ _ _ _ _ _ H) as (Hg & r & Hr & Hm).
  split; [lia|].
  destruct (match_here_firstn _ _ _ _ _ Hm) as (s' & _ & M & Hl).
  apply matches_min_width in M.
  assert (1 <= min_width r)%nat.
  { apply nth_error_In in Hr.
    exact (proj1 (Forall_forall _ _) token_pattern_min_width r Hr). }
  intros E. rewrite E in M. simpl in M. lia.
Qed.


(** A text [^\s+$] matches holds only whitespace. *)
Lemma pure_whitespace_sound t :
  re_match pure_whitespace t = true -> forallb Py_UNICODE_ISSPACE t = true.
Proof.
  unfold re_match. destruct (match_here false pure_whitespace None t) eqn:E;
    [intros _|discriminate].
  destruct (match_here_sound _ _ _ _ _ E) as (pre & s' & -> & M & _).
  unfold pure_whitespace, cat in M. simpl in M.
  inversion M as [| |r1 r2 p0 pre1 pre2 s0 M1 M2| | | | |]; subst.
  inversion M1; subst. simpl in M2.
  inversion M2 as [| |r1 r2 p0 pre1 pre3 s0 M3 M4| | | | |]; subst.
  inversion M4 as [| | | | | | |p0 s0 He]; subst.
  inversion M3 as [|cs lo hi p0 pre0 s0 Hall _ _| | | | | |]; subst.
  simpl. rewrite app_nil_r, forallb_app. apply andb_true_iff. split.
  - rewrite forallb_forall in *. intros c Hin. rewrite <- space_mem. auto.
  - destruct s' as [|c [|]]; try discriminate; [reflexivity|].
    simpl in He. apply Z.eqb_eq in He. subst c. reflexivity.
Qed.

(** A decimal digit is a word character. *)
Lemma decimal_is_word c : Py_UNICODE_ISDECIMAL c = true -> is_word c = true.
Proof.
  unfold is_word, Py_UNICODE_ISDECIMAL, Py_UNICODE_ISALNUM.
  destruct (tabulated c).
  - unfold in_ranges, decimal_rows, alnum_rows, in_range. cbn [existsb fst snd].
    intros H. apply orb_true_iff. left.
    repeat rewrite orb_true_iff in *. repeat rewrite andb_true_iff in *.
    repeat rewrite Z.leb_le in *. lia.
  - intros H. rewrite (decimal_alnum_elsewhere c H). reflexivity.
Qed.

Lemma digit_mem c : cset_mem digit c = Py_UNICODE_ISDECIMAL c.
Proof. unfold cset_mem, digit, class. simpl. now rewrite orb_false_r. Qed.

(** A greedy repetition followed by a character outside its class
    reaches that character first. *)
Lemma repeat_one_greedy {A : Type} (cs : cset) (k : cont (A := A)) c rest :
  cset_mem cs c = false ->
  forall ds lo p,
    forallb (cset_mem cs) ds = true -> (lo <= length ds)%nat ->
    k (advance p ds) (c :: rest) <> None ->
    repeat_one cs lo None p (ds ++ c :: rest) k <> None.
Proof.
  intros Hc. induction ds as [|d ds IH]; intros lo p Hds Hlo Hk; simpl in *.
  - rewrite Hc. destruct lo; [exact Hk|lia].
  - apply andb_true_iff in Hds as [Hd Hds]. rewrite Hd.
    destruct (repeat_one cs (pred lo) None (Some d) (ds ++ c :: rest) k) eqn:E;
      [simpl; discriminate|].
    exfalso. revert E. apply IH; auto. lia.
Qed.

Lemma advance_last p ds :
  ds <> [] -> exists d, In d ds /\ advance p ds = Some d.
Proof.
  revert p. induction ds as [|d ds IH]; intros p H; [contradiction|].
  destruct ds as [|d' ds].
  - exists d. simpl. auto.
  - destruct (IH (Some d)) as (x & Hx & E); [discriminate|].
    exists x. split; [now right|exact E].
Qed.

(** Where digits stand at a word boundary and a "/" or "-" follows, the
    integer pattern matches. *)
Lemma integer_matches_before_separator adv p ds c rest :
  at_boundary p (ds ++ c :: rest) = true ->
  forallb (cset_mem digit) ds = true -> (1 <= length ds)%nat ->
  cset_mem (class (chars "/-")) c = true ->
  match_here adv pat_integer p (ds ++ c :: rest) <> None.
Proof.
  intros Hb Hds Hlen Hc.
  assert (Hsep : c = chr "/" \/ c = chr "-").
  { unfold cset_mem, class in Hc. simpl in Hc.
    rewrite orb_false_r in Hc. apply orb_true_iff in Hc.
    destruct Hc as [Hc|Hc]; apply Z.eqb_eq in Hc; auto. }
  unfold match_here, pat_integer, cat, plus. cbn [fold_right rmatch].
  rewrite Hb. apply repeat_one_greedy; auto.
  - rewrite digit_mem. destruct Hsep as [->| ->]; reflexivity.
  - destruct (advance_last p ds) as (d & Hd & ->); [destruct ds; simpl in *; [lia|discriminate]|].
    assert (Hw : is_word d = true).
    { apply decimal_is_word. rewrite <- digit_mem.
      exact (proj1 (forallb_forall _ _) Hds d Hd). }
    unfold at_boundary. rewrite Hw.
    replace (is_word c) with false by (destruct Hsep as [->| ->]; reflexivity).
    cbn [xorb]. rewrite length_app. simpl length.
    replace (length ds + S (length rest) - S (length rest))%nat with (length ds) by lia.
    destruct ds; simpl in *; [lia|]. rewrite andb_false_r. discriminate.
Qed.

Ltac invert_cat M :=
  let M1 := fresh "M" in
  let M2 := fresh "M" in
  inversion M as [| |? ? ? ? ? ? M1 M2| | | | |]; subst; clear M.

(** Wherever the date pattern matches, the integer pattern matches. *)
Lemma date_implies_integer adv p s n :
  match_here adv pat_date p s = Some n ->
  match_here adv pat_integer p s <> None.
Proof.
  intros H. destruct (match_here_sound _ _ _ _ _ H) as (pre & s' & -> & M & _).
  unfold pat_date, cat in M. cbn [fold_right] in M.
  inversion M as [| | |? ? ? ? ? M0|? ? ? ? ? M0| | |]; subst; clear M;
    invert_cat M0;
    match goal with
    | Hb : matches At_boundary _ _ _, Hr : matches (Cat (Repeat _ _ _) _) _ _ _ |- _ =>
        inversion Hb as [| | | | |? ? Hbnd| |]; subst; clear Hb;
        inversion Hr as [| |? ? ? ds ? ? Md Ms| | | | |]; subst; clear Hr;
        inversion Md as [|? ? ? ? ? ? Hall Hlo _| | | | | |]; subst; clear Md;
        inversion Ms as [| |? ? ? sp ? ? Msep _| | | | |]; subst; clear Ms;
        inversion Msep as [? ? c ? Hc| | | | | | |]; subst; clear Msep
    end;
    simpl app in *; rewrite <- ?app_assoc in *; simpl app in *;
    apply integer_matches_before_separator; auto; lia.
Qed.

(** The date branch of the combined pattern is never the one chosen:
    the integer branch precedes it. *)
Lemma token_here_never_date adv p s g n :
  token_here adv p s = Some (g, n) ->
  nth_error (map fst patterns) g <> Some "date"%string.
Proof.
  unfold token_here, token_pattern, patterns. cbn [map snd fst match_groups].
  destruct (match_here adv pat_email p s); [intros [= <- _]; discriminate|].
  destruct (match_here adv pat_url p s); [intros [= <- _]; discriminate|].
  destruct (match_here adv pat_decimal_number p s); [intros [= <- _]; discriminate|].
  destruct (match_here adv pat_integer p s) eqn:Ei; [intros [= <- _]; discriminate|].
  destruct (match_here adv pat_date p s) eqn:Ed.
  - exfalso. exact (date_implies_integer _ _ _ _ Ed Ei).
  - destruct (match_here adv pat_punctuation p s); [intros [= <- _]; discriminate|].
    destruct (match_here adv pat_gujarati_word p s); [intros [= <- _]; discriminate|].
    destruct (match_here adv pat_english_word p s); [intros [= <- _]; discriminate|].
    destruct (match_here adv pat_whitespace p s); [intros [= <- _]; discriminate|].
    discriminate.
Qed.

End PatternFacts.

(** ** [word_tokenize] *)

Section WordTokenize.

Context {ucd : UnicodeData}.

Lemma next_nonempty_group_tuple n g t :
  (g < n)%nat -> t <> [] -> next_nonempty (group_tuple n g t) = Some t.
Proof.
  intros Hg Ht. unfold next_nonempty, group_tuple.
  assert (H : forall m a, (a <= g < a + m)%nat ->
            find truthy (map (fun i => if Nat.eqb i g then t else []) (seq a m)) = Some t).
  { induction m as [|m IH]; intros a Ha; [lia|]. simpl.
    destruct (Nat.eqb a g) eqn:E.
    - destruct t; [contradiction|reflexivity].
    - simpl. apply Nat.eqb_neq in E. apply IH. lia. }
  apply H. lia.
Qed.

Lemma collect_tokens_spec (fs : list found) :
  Forall (fun f : found => (snd (fst f) < length token_pattern)%nat /\ snd f <> []) fs ->
  forall acc,
    collect_tokens
      (map (fun f : found => group_tuple (length token_pattern) (snd (fst f)) (snd f)) fs) acc
    = Some (acc ++ filter kept (map (fun f : found => snd f) fs)).
Proof.
  induction 1 as [|f fs [Hg Ht] _ IH]; intros acc; cbn [map collect_tokens filter].
  - now rewrite app_nil_r.
  - rewrite next_nonempty_group_tuple; [|exact Hg|exact Ht]. unfold kept at 1.
    destruct (re_match pure_whitespace (snd f)); cbn [negb].
    + apply IH.
    + rewrite IH, <- app_assoc. reflexivity.
Qed.

(** [word_tokenize] never runs [next] on a match without a non-empty
    group: it returns the kept matched texts. *)
Lemma word_tokenize_spec (s : pystr) : word_tokenize s = Some (tokens_of s).
Proof.
  unfold word_tokenize, findall, tokens_of.
  change (fun adv : bool => match_groups adv token_pattern 0) with token_here.
  rewrite collect_tokens_spec; [reflexivity|].
  apply (scan_found token_here
           (fun g t => (g < length token_pattern)%nat /\ t <> [])).
  intros adv p s0 g n H. exact (token_here_sound _ _ _ _ _ H).
Qed.

Lemma in_flatten (r : list found * pystr) (c : char) :
  In c (flatten r) ->
  (exists f, In f (fst r) /\ (In c (fst (fst f)) \/ In c (snd f))) \/ In c (snd r).
Proof.
  unfold flatten. intros H. apply in_app_or in H as [H|H]; [left|now right].
  apply in_concat in H as (l & Hl & Hc).
  apply in_map_iff in Hl as (f & <- & Hf).
  exists f. split; [exact Hf|]. apply in_app_or in Hc. exact Hc.
Qed.

Lemma flatten_in_text (r : list found * pystr) (f : found) (c : char) :
  In f (fst r) -> In c (snd f) -> In c (flatten r).
Proof.
  intros Hf Hc. unfold flatten. apply in_or_app. left.
  apply in_concat. exists (fst (fst f) ++ snd f). split.
  - apply in_map_iff. exists f. auto.
  - apply in_or_app. now right.
Qed.

(** Tokens are made of characters of the text. *)
Lemma tokens_of_in_text s tok c :
  In tok (tokens_of s) -> In c tok -> In c s.
Proof.
  unfold tokens_of. intros Ht Hc.
  apply filter_In in Ht as [Ht _]. apply in_map_iff in Ht as (f & <- & Hf).
  pose proof (scan_flatten token_here s None 0 []) as E. simpl in E.
  rewrite <- E. eapply flatten_in_text; eauto.
Qed.





End WordTokenize.

(** ** [str.strip] *)

Lemma lstrip_suffix (s : pystr) : exists pre, s = pre ++ lstrip s.
Proof.
  induction s as [|c tl [pre IH]]; simpl.
  - now exists [].
  - destruct (Py_UNICODE_ISSPACE c).
    + exists (c :: pre). simpl. now f_equal.
    + now exists [].
Qed.

Lemma lstrip_head (s : pystr) (c : char) :
  hd_error (lstrip s) = Some c -> Py_UNICODE_ISSPACE c = false.
Proof.
  induction s as [|x tl IH]; simpl; [discriminate|].
  destruct (Py_UNICODE_ISSPACE x) eqn:E; [exact IH|].
  simpl. now intros [= <-].
Qed.

Lemma strip_prefix_of_lstrip (s : pystr) : exists post, lstrip s = strip s ++ post.
Proof.
  unfold strip, rstrip.
  destruct (lstrip_suffix (rev (lstrip s))) as [pre E].
  exists (rev pre). rewrite <- rev_app_distr, <- E. now rewrite rev_involutive.
Qed.

Lemma strip_in (s : pystr) (c : char) : In c (strip s) -> In c s.
Proof.
  intros H. destruct (strip_prefix_of_lstrip s) as [post E].
  destruct (lstrip_suffix s) as [pre E']. rewrite E', E.
  apply in_or_app. right. apply in_or_app. now left.
Qed.

Lemma strip_head (s : pystr) (c : char) :
  hd_error (strip s) = Some c -> Py_UNICODE_ISSPACE c = false.
Proof.
  intros H. apply (lstrip_head s).
  destruct (strip_prefix_of_lstrip s) as [post E]. rewrite E.
  destruct (strip s); [discriminate|exact H].
Qed.

Lemma strip_last (s : pystr) (c : char) :
  hd_error (rev (strip s)) = Some c -> Py_UNICODE_ISSPACE c = false.
Proof.
  unfold strip, rstrip. rewrite rev_involutive. apply lstrip_head.
Qed.

(** ** [sentence_tokenize] *)

Section SentenceTokenize.

Context {ucd : UnicodeData}.

(** At a terminator the sentence pattern matches, and never emptily. *)
Lemma sentence_here_terminator p c tl :
  is_terminator c = true ->
  exists g n, sentence_here false p (c :: tl) = Some (g, S n).
Proof.
  intros Hc.
  assert (Hm : match_here false sentence_pattern p (c :: tl) <> None).
  { unfold match_here, sentence_pattern. cbn [rmatch].
    apply plus_accepting; [|now rewrite terminator_mem].
    intros p' s'. apply repeat_one_accepting. apply final_accepts. }
  unfold sentence_here. simpl.
  destruct (match_here false sentence_pattern p (c :: tl)) as [n|] eqn:E;
    [|contradiction].
  destruct (match_here_sound _ _ _ _ _ E) as (pre & s' & _ & M & -> & _).
  apply matches_min_width in M. simpl in M.
  destruct pre as [|x pre]; [simpl in M; lia|]. simpl. eauto.
Qed.

(** The pieces [split] returns hold no terminator. *)
Lemma split_no_terminator (s piece : pystr) (c : char) :
  In piece (split sentence_pattern s) -> In c piece -> is_terminator c = false.
Proof.
  unfold split.
  change (fun adv : bool => match_groups adv [sentence_pattern] 0) with sentence_here.
  destruct (scan_gaps sentence_here (fun c => is_terminator c = false)) with
    (s := s) (p := @None char) (skip := 0%nat) (gap := @nil char) as [Hg Ht].
  { intros p c0 tl Hno. destruct (is_terminator c0) eqn:Hk; [|reflexivity].
    destruct (sentence_here_terminator p c0 tl Hk) as (g & n & Hm).
    exfalso. exact (Hno _ _ Hm). }
  { constructor. }
  intros Hp Hc. apply in_app_or in Hp as [Hp|[<-|[]]].
  - apply in_map_iff in Hp as (f & <- & Hf).
    rewrite Forall_forall in Hg. specialize (Hg f Hf).
    rewrite Forall_forall in Hg. exact (Hg c Hc).
  - rewrite Forall_forall in Ht. exact (Ht c Hc).
Qed.

Lemma sentence_tokenize_clean (t : pystr) :
  Forall clean_sentence (sentence_tokenize t).
Proof.
  apply Forall_forall. intros s Hs. unfold sentence_tokenize in Hs.
  apply in_map_iff in Hs as (piece & <- & Hp).
  apply filter_In in Hp as [Hp Hne].
  repeat split.
  - intros E. rewrite E in Hne. discriminate.
  - apply strip_head.
  - apply strip_last.
  - intros c Hc. apply strip_in in Hc.
    exact (split_no_terminator _ _ _ Hp Hc).
Qed.

(** ** [tokenize_paragraph] *)

Lemma tokenize_sentences_spec (todo : list pystr) :
  forall result,
    tokenize_sentences todo result =
    Some {| original_text := original_text result;
            sentences := sentences result ++ map sentence_of todo;
            total_words :=
              fold_left (fun n s => n + len (tokens_of s)) todo (total_words result);
            total_characters := total_characters result |}.
Proof.
  induction todo as [|s todo IH]; intros result; simpl.
  - rewrite app_nil_r. now destruct result.
  - rewrite word_tokenize_spec, IH. simpl. rewrite <- app_assoc. reflexivity.
Qed.

Lemma tokenize_paragraph_spec (paragraph : pystr) :
  tokenize_paragraph paragraph =
  Some {| original_text := paragraph;
          sentences := map sentence_of (sentence_tokenize paragraph);
          total_words :=
            fold_left (fun n s => n + len (tokens_of s)) (sentence_tokenize paragraph) 0;
          total_characters := len paragraph |}.
Proof. unfold tokenize_paragraph. now rewrite tokenize_sentences_spec. Qed.

End SentenceTokenize.

(** * The claims *)

(** C1: [classify_token] is total and deterministic: for every token it
    returns the label of the first rule, in the order email, url,
    decimal_number, date, integer, punctuation, gujarati_word,
    english_word, whose anchored match succeeds, and "other" when none
    does; the result is one of the nine categories, and the rules are
    those of the pattern dictionary. *)
Theorem classify_token_first_match (ucd : UnicodeData) (token : pystr) :
  classify_token token =
    match find (fun rule => re_match (snd rule) token) precedence_order with
    | Some rule => fst rule
    | None => "other"%string
    end
  /\ In (classify_token token) categories
  /\ incl precedence_order patterns.
Proof.
  split; [|split].
  - unfold classify_token, precedence_order. cbn [find snd fst].
    repeat match goal with |- context [re_match ?r token] =>
      destruct (re_match r token); [reflexivity|] end.
    reflexivity.
  - unfold classify_token, categories.
    repeat match goal with |- context [re_match ?r token] =>
      destruct (re_match r token); [simpl; tauto|] end.
    simpl; tauto.
  - intros rule H. unfold precedence_order, patterns in *. simpl in *.
    intuition (subst; auto).
Qed.




(** [covers] counts occurrences: the text "ab , ab , ab" is covered
    by its five tokens and not by the two distinct ones. *)
Lemma covers_counts_occurrences :
  covers kept_ranges (str "ab , ab , ab")
         [str "ab"; str ","; str "ab"; str ","; str "ab"] /\
  ~ covers kept_ranges (str "ab , ab , ab") [str ","; str "ab"].
Proof.
  split.
  - apply (covers_token _ (str "ab")). apply covers_skip; [reflexivity|].
    apply (covers_token _ (str ",")). apply covers_skip; [reflexivity|].
    apply (covers_token _ (str "ab")). apply covers_skip; [reflexivity|].
    apply (covers_token _ (str ",")). apply covers_skip; [reflexivity|].
    apply (covers_token _ (str "ab") []). constructor.
  - intros H. inversion H as [|c text toks Hc _|tok text toks _ E]; subst.
    + vm_compute in Hc. discriminate Hc.
    + vm_compute in E. discriminate E.
Qed.

(** C4, as stated, fails: the sample text yields four sentences, not
    three, because the "." of the e-mail address is a terminator. *)
Lemma sample_text_is_not_three_sentences :
  length (sentence_tokenize (ucd := rows_only) sample_text) <> 3%nat.
Proof. vm_compute. discriminate. Qed.

(** C4, amended: on the sample text [sentence_tokenize] returns exactly
    the four sentences [sample_1] to [sample_4]; [word_tokenize] on
    "મારું ઇમેઇલ test@example.com છે" returns the three Gujarati words and
    "test@example.com"; [classify_token] labels the latter email and the
    Gujarati words gujarati_word. *)
Theorem sample_text_tokenization (ucd : UnicodeData) :
  sentence_tokenize sample_text = [sample_1; sample_2; sample_3; sample_4] /\
  word_tokenize sample_sentence =
    Some [word_marun; word_email; str "test@example.com"; word_chhe] /\
  classify_token (str "test@example.com") = "email"%string /\
  classify_token word_marun = "gujarati_word"%string /\
  classify_token word_email = "gujarati_word"%string /\
  classify_token word_chhe = "gujarati_word"%string.
Proof. repeat split; vm_compute; reflexivity. Qed.

(** C5, as stated, fails: "123abc" is classified other, since [\b] after
    the digits needs a word boundary and "3a" has none. *)
Lemma classify_123abc_is_not_integer :
  classify_token (ucd := rows_only) (str "123abc") = "other"%string /\
  classify_token (ucd := rows_only) (str "123abc") <> "integer"%string.
Proof. split; vm_compute; [reflexivity|discriminate]. Qed.

(** C5, amended: [classify_token] matches a rule at the start of the
    token without requiring it to consume the whole token: on "123-abc"
    the integer rule consumes the three characters "123" of seven and
    the token is classified integer; "123abc" is classified other. *)
Theorem classify_token_prefix_match (ucd : UnicodeData) :
  match_here false pat_integer None (str "123-abc") = Some 3%nat /\
  classify_token (str "123-abc") = "integer"%string /\
  classify_token (str "123abc") = "other"%string.
Proof. repeat split; vm_compute; reflexivity. Qed.

(** C6: on "25/07/2025" [classify_token] returns date, but
    [word_tokenize] returns five tokens, not one: in the combined
    pattern the integer branch precedes the date branch and takes
    "25"; no match of the combined pattern is ever a match of its date
    branch. *)
Theorem date_is_split_into_five_tokens (ucd : UnicodeData) :
  word_tokenize (str "25/07/2025") =
    Some [str "25"; str "/"; str "07"; str "/"; str "2025"] /\
  classify_token (str "25/07/2025") = "date"%string /\
  forall adv p s g n,
    token_here adv p s = Some (g, n) ->
    nth_error (map fst patterns) g <> Some "date"%string.
Proof.
  split; [vm_compute; reflexivity|]. split; [vm_compute; reflexivity|].
  apply token_here_never_date.
Qed.

Lemma date_is_split_into_five_tokens_witness :
  token_here (ucd := rows_only) false None (str "25/07/2025") = Some (3%nat, 2%nat) /\
  nth_error (map fst patterns) 3 = Some "integer"%string /\
  nth_error (map fst patterns) 3 <> Some "date"%string.
Proof.
  split; [vm_compute; reflexivity|]. split; [reflexivity|].
  apply (proj2 (proj2 (date_is_split_into_five_tokens rows_only))
           false None (str "25/07/2025") 3%nat 2%nat).
  vm_compute. reflexivity.
Defined.

(** C7: on "3.14" [word_tokenize] returns the single token "3.14" and
    [classify_token] returns decimal_number; the integer rule matches
    the token as well, and loses to decimal_number by precedence. *)
Theorem decimal_number_before_integer (ucd : UnicodeData) :
  word_tokenize (str "3.14") = Some [str "3.14"] /\
  classify_token (str "3.14") = "decimal_number"%string /\
  re_match pat_decimal_number (str "3.14") = true /\
  re_match pat_integer (str "3.14") = true.
Proof. repeat split; vm_compute; reflexivity. Qed.

(** C9: every sentence [sentence_tokenize] returns is non-empty, has no
    whitespace at either end and holds no terminator; so it is for the
    sentence texts of the document [tokenize_paragraph] builds, and no
    word of such a sentence holds a terminator. *)
Theorem sentences_hold_no_terminator (ucd : UnicodeData) (t : pystr) :
  Forall clean_sentence (sentence_tokenize t) /\
  exists doc,
    tokenize_paragraph t = Some doc /\
    Forall (fun sent =>
              clean_sentence (text sent) /\
              Forall (Forall (fun c => is_terminator c = false)) (words sent))
           (sentences doc).
Proof.
  split; [apply sentence_tokenize_clean|].
  exists (document_of t). split; [apply tokenize_paragraph_spec|].
  simpl. apply Forall_forall. intros sent Hs.
  apply in_map_iff in Hs as (s & <- & Hs).
  pose proof (proj1 (Forall_forall _ _) (sentence_tokenize_clean t) s Hs) as Hc.
  split; [exact Hc|]. simpl.
  apply Forall_forall. intros w Hw. apply Forall_forall. intros c Hin.
  destruct Hc as (_ & _ & _ & Hterm). apply Hterm.
  exact (tokens_of_in_text _ _ _ Hw Hin).
Qed.

(** ** [process_dataset] *)

Lemma process_loop_spec (ucd : UnicodeData) (dataset : list (option pystr)) :
  forall i max_examples processed_data,
    process_loop dataset i max_examples processed_data =
    Some (processed_data ++
          map (fun example => document_of (get_text example))
              (filter non_blank (firstn (Z.to_nat (max_examples - i)) dataset))).
Proof.
  induction dataset as [|example rest IH]; intros i m acc; simpl.
  - now rewrite firstn_nil, app_nil_r.
  - destruct (i >=? m) eqn:E.
    + apply Z.geb_le in E.
      replace (Z.to_nat (m - i)) with 0%nat by lia. now rewrite app_nil_r.
    + rewrite Z.geb_leb in E. apply Z.leb_gt in E.
      replace (Z.to_nat (m - i)) with (S (Z.to_nat (m - (i + 1)))) by lia.
      simpl. unfold non_blank at 1.
      destruct (truthy (strip (get_text example))); simpl.
      * rewrite tokenize_paragraph_spec, IH, <- app_assoc. reflexivity.
      * apply IH.
Qed.

(** C10: [process_dataset] returns the documents of exactly the
    non-blank records among the first [max_examples] records, in source
    order; blank records count toward the limit, so the result can be
    shorter than [max_examples] although the source holds that many
    non-blank records beyond its first [max_examples] records. *)
Theorem process_dataset_examines_prefix (ucd : UnicodeData) :
  (forall dataset max_examples,
      exists docs,
        process_dataset dataset max_examples = Some docs /\
        Forall2 (fun example doc => tokenize_paragraph (get_text example) = Some doc)
                (filter non_blank (firstn (Z.to_nat max_examples) dataset)) docs) /\
  (exists dataset max_examples docs,
      process_dataset dataset max_examples = Some docs /\
      max_examples <= len (filter non_blank (skipn (Z.to_nat max_examples) dataset)) /\
      len docs < max_examples).
Proof.
  split.
  - intros dataset m. unfold process_dataset. rewrite process_loop_spec.
    rewrite Z.sub_0_r. simpl. eexists. split; [reflexivity|].
    induction (filter non_blank (firstn (Z.to_nat m) dataset)) as [|e l IH];
      simpl; constructor; auto.
    apply tokenize_paragraph_spec.
  - exists [Some (str " "); Some (str "a"); Some (str "b"); Some (str "c")], 2,
      [document_of (str "a")].
    split; [|split].
    + unfold process_dataset. rewrite process_loop_spec. reflexivity.
    + vm_compute. discriminate.
    + reflexivity.
Qed.

(** ** [compute_corpus_statistics] *)

Lemma len_app {A : Type} (a b : list A) : len (a ++ b) = len a + len b.
Proof. unfold len. rewrite length_app. lia. Qed.

Lemma len_nonneg {A : Type} (l : list A) : 0 <= len l.
Proof. unfold len. lia. Qed.

Lemma fold_count_sentence (ss : list Sentence) :
  forall c,
    fold_left count_sentence ss c =
    {| c_total_sentences := c_total_sentences c + len ss;
       c_total_words := c_total_words c + len (flat_map words ss);
       c_total_characters := c_total_characters c;
       c_all_words := c_all_words c ++ flat_map words ss |}.
Proof.
  induction ss as [|s ss IH]; intros c; simpl.
  - rewrite !Z.add_0_r, app_nil_r. now destruct c.
  - rewrite IH. unfold count_sentence. simpl.
    rewrite len_app, <- app_assoc. f_equal; unfold len; simpl length; lia.
Qed.

Lemma fold_count_document (data : list Document) :
  forall c,
    fold_left count_document data c =
    {| c_total_sentences := c_total_sentences c + len (all_sentences data);
       c_total_words := c_total_words c + len (all_tokens data);
       c_total_characters :=
         c_total_characters c + fold_right Z.add 0 (map total_characters data);
       c_all_words := c_all_words c ++ all_tokens data |}.
Proof.
  unfold all_tokens, all_sentences.
  induction data as [|d data IH]; intros c; simpl.
  - rewrite !Z.add_0_r, app_nil_r. now destruct c.
  - rewrite IH. unfold count_document. rewrite fold_count_sentence. simpl.
    rewrite flat_map_app, !len_app, <- app_assoc. f_equal; lia.
Qed.

Lemma sum_len (l : list pystr) :
  forall acc, fold_left Z.add (map len l) acc = acc + len (concat l).
Proof.
  induction l as [|w l IH]; intros acc; simpl.
  - unfold len. simpl. lia.
  - rewrite IH, len_app. lia.
Qed.

Lemma guarded_ratio_spec (x y : Z) :
  0 <= y -> guarded_ratio x y = Some (ratio_or_zero x y).
Proof.
  intros Hy. unfold guarded_ratio, ratio_or_zero, int_truediv, float_ratio.
  destruct (y >? 0) eqn:E.
  - apply Z.gtb_lt in E. destruct (y =? 0) eqn:E0; [apply Z.eqb_eq in E0; lia|].
    reflexivity.
  - rewrite Z.gtb_ltb in E. apply Z.ltb_ge in E.
    replace y with 0 by lia. reflexivity.
Qed.

(** The function never fails, and returns the rounded guarded ratios. *)
Lemma compute_corpus_statistics_spec (data : list Document) :
  compute_corpus_statistics data =
  Some {| total_number_of_sentences := len (all_sentences data);
          total_number_of_words := len (all_tokens data);
          total_number_of_characters := fold_right Z.add 0 (map total_characters data);
          average_sentence_length :=
            round (ratio_or_zero (len (all_tokens data)) (len (all_sentences data))) 2;
          average_word_length :=
            round (ratio_or_zero (token_characters data) (len (all_tokens data))) 2;
          type_token_ratio :=
            round (ratio_or_zero (len (distinct_tokens data)) (len (all_tokens data))) 4;
          total_unique_words := len (distinct_tokens data) |}.
Proof.
  unfold compute_corpus_statistics. rewrite fold_count_document. simpl.
  rewrite sum_len. simpl.
  rewrite !guarded_ratio_spec by apply len_nonneg. reflexivity.
Qed.

(** [round_half_even a b] is within one half of [a / b]. *)
Lemma round_half_even_near (a b : Z) :
  0 < b ->
  (2 * round_half_even a b - 1) * b <= 2 * a <=
  (2 * round_half_even a b + 1) * b.
Proof.
  intros Hb. unfold round_half_even.
  pose proof (Z.div_mod a b ltac:(lia)) as E.
  pose proof (Z.mod_pos_bound a b Hb) as Hr.
  destruct (Z.compare_spec (2 * (a mod b)) b) as [H|H|H];
    [destruct (Z.even (a / b))| |]; nia.
Qed.

Lemma round_rounded_to (nd : Z) (x : pynum) :
  0 <= nd -> rounded_to nd x (round x nd).
Proof.
  intros Hnd. destruct x as [z|[s|s| |s m e]]; try reflexivity.
  assert (Hscale : 0 < 10 ^ nd) by (apply Z.pow_pos_nonneg; lia).
  unfold rounded_to, round, double_round, float_ratio.
  destruct e as [|e|d].
  - exists (Z.pos m * 2 ^ 0 * 10 ^ nd). repeat split.
    + unfold Qle, magnitude. cbn [Qnum Qden Qmult inject_Z Pos.mul]. lia.
    + unfold Qle, magnitude. cbn [Qnum Qden Qmult inject_Z Pos.mul]. lia.
  - exists (Z.pos m * 2 ^ Z.pos e * 10 ^ nd). repeat split.
    + unfold Qle, magnitude. cbn [Qnum Qden Qmult inject_Z Pos.mul]. lia.
    + unfold Qle, magnitude. cbn [Qnum Qden Qmult inject_Z Pos.mul]. lia.
  - exists (round_half_even (Z.pos m * 10 ^ nd) (2 ^ Z.pos d)).
    assert (Hb : 0 < 2 ^ Z.pos d) by (apply Z.pow_pos_nonneg; lia).
    pose proof (round_half_even_near (Z.pos m * 10 ^ nd) _ Hb) as [H1 H2].
    repeat split.
    + unfold Qle, magnitude. cbn [Qnum Qden Qmult inject_Z].
      rewrite Pos.mul_1_r, Pos2Z.inj_pow. lia.
    + unfold Qle, magnitude. cbn [Qnum Qden Qmult inject_Z].
      rewrite Pos.mul_1_r, Pos2Z.inj_pow. lia.
Qed.

(** C3, as stated, fails: for four tokens in three sentences the
    returned average sentence length is 1.33, neither the float 4/3 nor
    the number 4/3. *)
Lemma average_of_4_over_3_is_rounded :
  ~ (exists stats,
       compute_corpus_statistics corpus_4_3 = Some stats /\
       unrounded_statistics corpus_4_3 stats) /\
  exists stats,
    compute_corpus_statistics corpus_4_3 = Some stats /\
    average_sentence_length stats = PyFloat (float_ratio 133 100) /\
    average_sentence_length stats <> PyFloat (float_ratio 4 3) /\
    ~ (value (average_sentence_length stats) == 4 # 3)%Q.
Proof.
  split.
  - intros (stats & H & Hu & _). vm_compute in H. injection H as <-.
    vm_compute in Hu. discriminate.
  - eexists. split; [vm_compute; reflexivity|].
    split; [vm_compute; reflexivity|]. split; vm_compute; discriminate.
Qed.

(** C3, amended: [compute_corpus_statistics] never fails; the average
    sentence length it returns is total_words / total_sentences rounded
    to 2 decimals, the average word length is the sum of the token
    lengths / total_words rounded to 2 decimals, the type-token ratio is
    the number of distinct tokens / total_words rounded to 4 decimals;
    each is the integer 0, an ordinary result, when its divisor is 0. *)
Theorem statistics_are_guarded_rounded_ratios (data : list Document) :
  exists stats,
    compute_corpus_statistics data = Some stats /\
    average_sentence_length stats =
      round (ratio_or_zero (len (all_tokens data)) (len (all_sentences data))) 2 /\
    average_word_length stats =
      round (ratio_or_zero (token_characters data) (len (all_tokens data))) 2 /\
    type_token_ratio stats =
      round (ratio_or_zero (len (distinct_tokens data)) (len (all_tokens data))) 4 /\
    (len (all_sentences data) = 0 -> average_sentence_length stats = PyInt 0) /\
    (len (all_tokens data) = 0 ->
     average_word_length stats = PyInt 0 /\ type_token_ratio stats = PyInt 0).
Proof.
  eexists. split; [apply compute_corpus_statistics_spec|]. simpl.
  split; [reflexivity|]. split; [reflexivity|]. split; [reflexivity|].
  split.
  - intros E. rewrite E. reflexivity.
  - intros E. rewrite E. split; reflexivity.
Qed.

Lemma statistics_are_guarded_rounded_ratios_witness :
  exists stats,
    compute_corpus_statistics [] = Some stats /\
    average_sentence_length stats = PyInt 0 /\
    average_word_length stats = PyInt 0 /\
    type_token_ratio stats = PyInt 0.
Proof.
  destruct (statistics_are_guarded_rounded_ratios [])
    as (stats & H & _ & _ & _ & Hs & Hw).
  exists stats. split; [exact H|].
  split; [apply Hs; reflexivity|apply Hw; reflexivity].
Defined.

(** C8, as stated, fails: for three tokens of which one is distinct the
    returned type-token ratio is 0.3333, neither the float 1/3 nor the
    number 1/3. *)
Lemma ratio_of_1_over_3_is_rounded :
  ~ (exists stats,
       compute_corpus_statistics corpus_aaa = Some stats /\
       unrounded_statistics corpus_aaa stats) /\
  exists stats,
    compute_corpus_statistics corpus_aaa = Some stats /\
    type_token_ratio stats = PyFloat (float_ratio 3333 10000) /\
    type_token_ratio stats <> PyFloat (float_ratio 1 3) /\
    ~ (value (type_token_ratio stats) == 1 # 3)%Q.
Proof.
  split.
  - intros (stats & H & _ & _ & Hu). vm_compute in H. injection H as <-.
    vm_compute in Hu. discriminate.
  - eexists. split; [vm_compute; reflexivity|].
    split; [vm_compute; reflexivity|]. split; vm_compute; discriminate.
Qed.

(** C8, amended: the values [compute_corpus_statistics] returns are
    rounded by the function itself: the average sentence length and the
    average word length are the ratios at 2 decimals, the type-token
    ratio is the ratio at 4 decimals. *)
Theorem returned_statistics_are_rounded (data : list Document) :
  exists stats,
    compute_corpus_statistics data = Some stats /\
    rounded_to 2
      (ratio_or_zero (len (all_tokens data)) (len (all_sentences data)))
      (average_sentence_length stats) /\
    rounded_to 2
      (ratio_or_zero (token_characters data) (len (all_tokens data)))
      (average_word_length stats) /\
    rounded_to 4
      (ratio_or_zero (len (distinct_tokens data)) (len (all_tokens data)))
      (type_token_ratio stats).
Proof.
  eexists. split; [apply compute_corpus_statistics_spec|]. simpl.
  repeat split; apply round_rounded_to; lia.
Qed.

(** * Further properties *)

(** ** The matcher finds a match whenever there is one *)

Section MatcherComplete.

Context {ucd : UnicodeData}.

Lemma repeat_one_complete {A : Type} (cs : cset) (k : cont (A := A)) s' :
  forall pre lo hi p,
    forallb (cset_mem cs) pre = true ->
    (lo <= length pre)%nat ->
    (forall h, hi = Some h -> (length pre <= h)%nat) ->
    k (advance p pre) s' <> None ->
    repeat_one cs lo hi p (pre ++ s') k <> None.
Proof.
  induction pre as [|c pre IH]; intros lo hi p Hall Hlo Hhi Hk.
  - simpl in *. assert (lo = 0%nat) by lia. subst lo.
    destruct s' as [|c tl]; destruct hi as [[|h]|]; simpl; auto;
      destruct (cset_mem cs c); auto;
      match goal with |- orelse ?a _ <> None => destruct a; simpl; [discriminate|auto] end.
  - simpl in Hall. apply andb_true_iff in Hall as [Hc Hall].
    simpl app. cbn [repeat_one]. rewrite Hc.
    assert (Hrec : repeat_one cs (pred lo) (option_map pred hi) (Some c) (pre ++ s') k <> None).
    { apply IH; auto.
      - simpl in Hlo. lia.
      - intros h' E. destruct hi as [h|]; [|discriminate]. injection E as <-.
        specialize (Hhi h eq_refl). simpl in Hhi. lia. }
    destruct hi as [[|h]|].
    + specialize (Hhi 0%nat eq_refl). simpl in Hhi. lia.
    + destruct (repeat_one cs (pred lo) (option_map pred (Some (S h))) (Some c) (pre ++ s') k);
        simpl; [discriminate|contradiction].
    + destruct (repeat_one cs (pred lo) (option_map pred None) (Some c) (pre ++ s') k);
        simpl; [discriminate|contradiction].
Qed.

Lemma rmatch_complete {A : Type} r p pre s' :
  matches r p pre s' ->
  forall k : cont (A := A),
    k (advance p pre) s' <> None -> rmatch r p (pre ++ s') k <> None.
Proof.
  induction 1 as [cs p c s' Hc|cs lo hi p pre s' Hall Hlo Hhi
                 |r1 r2 p pre1 pre2 s' M1 IH1 M2 IH2
                 |r1 r2 p pre s' M IH|r1 r2 p pre s' M IH
                 |p s' Hb|s'|p s' He]; intros k Hk; simpl.
  - rewrite Hc. exact Hk.
  - apply repeat_one_complete; auto.
  - rewrite <- app_assoc. apply IH1. apply IH2.
    rewrite advance_app in Hk. exact Hk.
  - destruct (rmatch r1 p (pre ++ s') k) eqn:E; simpl; [discriminate|].
    exfalso. exact (IH k Hk E).
  - destruct (rmatch r1 p (pre ++ s') k) eqn:E; simpl; [discriminate|].
    apply IH. exact Hk.
  - rewrite Hb. exact Hk.
  - exact Hk.
  - rewrite He. exact Hk.
Qed.

(** [re.match] succeeds exactly when some prefix of the string is a
    match. *)
Lemma re_match_iff r s :
  re_match r s = true <-> exists pre s', s = pre ++ s' /\ matches r None pre s'.
Proof.
  unfold re_match. split.
  - destruct (match_here false r None s) eqn:E; [intros _|discriminate].
    destruct (match_here_sound _ _ _ _ _ E) as (pre & s' & -> & M & _). eauto.
  - intros (pre & s' & -> & M).
    destruct (match_here false r None (pre ++ s')) eqn:E; [reflexivity|].
    exfalso. revert E. unfold match_here. apply rmatch_complete; auto.
    simpl. discriminate.
Qed.

Lemma literal_outside_sound A cs c :
  literal_outside A cs = true -> cset_mem cs c = true -> A c = false.
Proof.
  unfold literal_outside, cset_mem. intros H Hm.
  apply andb_true_iff in H as [Hn Hi].
  destruct (negate cs); [discriminate|]. simpl in Hm.
  apply existsb_exists in Hm as (i & Hin & Hc).
  rewrite forallb_forall in Hi. specialize (Hi i Hin).
  destruct i; try discriminate. simpl in Hc. apply Z.eqb_eq in Hc. subst.
  now apply negb_true_iff.
Qed.

Lemma needs_outside_sound A r p pre s' :
  matches r p pre s' -> needs_outside A r = true ->
  exists c, In c pre /\ A c = false.
Proof.
  induction 1 as [cs p c s' Hc|cs lo hi p pre s' Hall Hlo Hhi
                 |r1 r2 p pre1 pre2 s' M1 IH1 M2 IH2
                 |r1 r2 p pre s' M IH|r1 r2 p pre s' M IH
                 |p s' Hb|s'|p s' He]; simpl; intros H; try discriminate.
  - exists c. split; [now left|]. eapply literal_outside_sound; eauto.
  - destruct lo as [|lo]; [discriminate|].
    destruct pre as [|c pre]; [simpl in Hlo; lia|].
    simpl in Hall. apply andb_true_iff in Hall as [Hc _].
    exists c. split; [now left|]. eapply literal_outside_sound; eauto.
  - apply orb_true_iff in H as [H|H].
    + destruct (IH1 H) as (c & Hin & Hc). exists c. split; auto.
      apply in_or_app. now left.
    + destruct (IH2 H) as (c & Hin & Hc). exists c. split; auto.
      apply in_or_app. now right.
  - apply andb_true_iff in H as [H _]. auto.
  - apply andb_true_iff in H as [_ H]. auto.
Qed.

Lemma starts_in_sound (ok : cset -> bool) (F : char -> bool) :
  (forall cs c, ok cs = true -> cset_mem cs c = true -> F c = true) ->
  forall r p pre s',
    matches r p pre s' -> starts_in ok r = true ->
    exists c tl, pre = c :: tl /\ F c = true.
Proof.
  intros Hok. induction 1 as [cs p c s' Hc|cs lo hi p pre s' Hall Hlo Hhi
                 |r1 r2 p pre1 pre2 s' M1 IH1 M2 IH2
                 |r1 r2 p pre s' M IH|r1 r2 p pre s' M IH
                 |p s' Hb|s'|p s' He]; simpl; intros H; try discriminate.
  - exists c, []. split; eauto.
  - destruct lo as [|lo]; [discriminate|].
    destruct pre as [|c pre]; [simpl in Hlo; lia|].
    simpl in Hall. apply andb_true_iff in Hall as [Hc _].
    exists c, pre. split; eauto.
  - apply orb_true_iff in H as [H|H].
    + destruct (IH1 H) as (c & tl & -> & Hc). exists c, (tl ++ pre2). split; auto.
    + apply andb_true_iff in H as [Ha H].
      destruct (IH2 H) as (c & tl & -> & Hc).
      assert (pre1 = []) as ->
        by (inversion M1; subst; try discriminate; reflexivity).
      exists c, tl. split; auto.
  - apply andb_true_iff in H as [H _]. auto.
  - apply andb_true_iff in H as [_ H]. auto.
Qed.

Lemma matches_classes r p pre s' :
  matches r p pre s' ->
  Forall (fun c => exists cs, In cs (classes_of r) /\ cset_mem cs c = true) pre.
Proof.
  induction 1 as [cs p c s' Hc|cs lo hi p pre s' Hall Hlo Hhi
                 |r1 r2 p pre1 pre2 s' M1 IH1 M2 IH2
                 |r1 r2 p pre s' M IH|r1 r2 p pre s' M IH
                 |p s' Hb|s'|p s' He]; simpl; try constructor.
  - exists cs. simpl. auto.
  - constructor.
  - apply Forall_forall. intros c Hin. exists cs. split; [now left|].
    exact (proj1 (forallb_forall _ _) Hall c Hin).
  - apply Forall_app. split; eapply Forall_impl; eauto;
      intros c (cs & Hin & Hc); exists cs; split; auto; apply in_or_app; auto.
  - eapply Forall_impl; eauto.
    intros c (cs & Hin & Hc); exists cs; split; auto; apply in_or_app; auto.
  - eapply Forall_impl; eauto.
    intros c (cs & Hin & Hc); exists cs; split; auto; apply in_or_app; auto.
Qed.

End MatcherComplete.

(** ** [classify_token] on simple tokens *)

Section ClassifyFacts.

Context {ucd : UnicodeData}.

Lemma re_match_min_width r t :
  re_match r t = true -> (min_width r <= length t)%nat.
Proof.
  intros H. apply re_match_iff in H as (pre & s' & -> & M).
  apply matches_min_width in M. rewrite length_app. lia.
Qed.

Lemma re_match_needs_outside A r t :
  needs_outside A r = true -> forallb A t = true -> re_match r t = false.
Proof.
  intros Hn Ht. destruct (re_match r t) eqn:E; [|reflexivity].
  apply re_match_iff in E as (pre & s' & -> & M).
  destruct (needs_outside_sound A _ _ _ _ M Hn) as (c & Hin & Hc).
  rewrite forallb_forall in Ht. rewrite Ht in Hc; [discriminate|].
  apply in_or_app. now left.
Qed.

Lemma digit_class_sound cs c :
  is_digit_class cs = true -> cset_mem cs c = true -> Py_UNICODE_ISDECIMAL c = true.
Proof.
  destruct cs as [[|] [|[| | |] [|]]]; try discriminate.
  intros _. now rewrite <- digit_mem.
Qed.

(** The three numeric rules match only a token that starts with a
    decimal digit. *)
Lemma re_match_numeric r t :
  starts_in is_digit_class r = true -> re_match r t = true ->
  exists c tl, t = c :: tl /\ Py_UNICODE_ISDECIMAL c = true.
Proof.
  intros Hs H. apply re_match_iff in H as (pre & s' & -> & M).
  destruct (starts_in_sound _ _ digit_class_sound _ _ _ _ M Hs) as (c & tl & -> & Hc).
  exists c, (tl ++ s'). auto.
Qed.

(** The last three rules look at the first character only. *)
Lemma re_match_plus_head cs t :
  re_match (plus cs) t = match t with c :: _ => cset_mem cs c | [] => false end.
Proof.
  unfold re_match, match_here. destruct t as [|c tl]; [reflexivity|].
  destruct (cset_mem cs c) eqn:Hc.
  - destruct (rmatch (plus cs) None (c :: tl) _) eqn:E; [reflexivity|].
    exfalso. revert E. apply plus_accepting; [apply final_accepts|exact Hc].
  - unfold plus. simpl. now rewrite Hc.
Qed.

Lemma re_match_punctuation t :
  re_match pat_punctuation t = match t with c :: _ => is_punctuation c | [] => false end.
Proof.
  unfold re_match, match_here, pat_punctuation. destruct t as [|c tl]; [reflexivity|].
  simpl rmatch. rewrite punctuation_mem. now destruct (is_punctuation c).
Qed.

Lemma re_match_gujarati_word t :
  re_match pat_gujarati_word t = match t with c :: _ => is_gujarati c | [] => false end.
Proof.
  unfold pat_gujarati_word. rewrite re_match_plus_head.
  destruct t; [reflexivity|apply gujarati_mem].
Qed.

Lemma re_match_english_word t :
  re_match pat_english_word t = match t with c :: _ => is_ascii_letter c | [] => false end.
Proof.
  unfold pat_english_word. rewrite re_match_plus_head.
  destruct t; [reflexivity|apply letter_mem].
Qed.

(** A non-empty run of decimal digits is a match of the integer rule. *)
Lemma re_match_integer_digits t :
  t <> [] -> forallb Py_UNICODE_ISDECIMAL t = true -> re_match pat_integer t = true.
Proof.
  intros Hne Hd. apply re_match_iff. exists t, []. split; [now rewrite app_nil_r|].
  assert (Hw : forall c, In c t -> is_word c = true).
  { intros c Hin. apply decimal_is_word. exact (proj1 (forallb_forall _ _) Hd c Hin). }
  unfold pat_integer, cat. cbn [fold_right].
  change t with ([] ++ t) at 1. constructor.
  - constructor. destruct t as [|c tl]; [contradiction|].
    unfold at_boundary. simpl. rewrite (Hw c); [reflexivity|now left].
  - rewrite <- (app_nil_r t) at 1. constructor.
    + constructor.
      * rewrite forallb_forall in *. intros c Hin. rewrite digit_mem. auto.
      * destruct t; [contradiction|simpl; lia].
      * discriminate.
    + constructor. unfold at_boundary. simpl.
      destruct (advance_last None t Hne) as (d & Hin & ->).
      rewrite (Hw d Hin). reflexivity.
Qed.

Lemma letter_not_decimal c :
  is_ascii_letter c = true -> Py_UNICODE_ISDECIMAL c = false.
Proof.
  unfold is_ascii_letter, Py_UNICODE_ISDECIMAL, tabulated, in_ranges, in_range.
  cbn [existsb fst snd decimal_rows]. intros H.
  repeat rewrite orb_true_iff in H. repeat rewrite andb_true_iff in H.
  repeat rewrite Z.leb_le in H. change (chr "A") with 65 in H.
  change (chr "Z") with 90 in H. change (chr "a") with 97 in H.
  change (chr "z") with 122 in H.
  replace (0 <=? c) with true by (symmetry; apply Z.leb_le; lia).
  replace (c <=? 127) with true by (symmetry; apply Z.leb_le; lia).
  cbn [andb orb].
  replace (c <=? 57) with false by (symmetry; apply Z.leb_gt; lia).
  replace (2790 <=? c) with false by (symmetry; apply Z.leb_gt; lia).
  now rewrite andb_false_r.
Qed.

Lemma punctuation_cases c :
  is_punctuation c = true -> In c punctuation_codes.
Proof.
  intros H. apply existsb_exists in H as (x & Hin & Hx).
  apply Z.eqb_eq in Hx. now subst.
Qed.

Lemma punctuation_not_decimal c :
  is_punctuation c = true -> Py_UNICODE_ISDECIMAL c = false.
Proof.
  intros H. apply punctuation_cases in H. vm_compute in H.
  repeat (destruct H as [<-|H]; [reflexivity|]). contradiction.
Qed.

Lemma punctuation_not_letter c :
  is_punctuation c = true -> is_ascii_letter c = false.
Proof.
  intros H. apply punctuation_cases in H. vm_compute in H.
  repeat (destruct H as [<-|H]; [reflexivity|]). contradiction.
Qed.

Lemma punctuation_not_gujarati c :
  is_punctuation c = true -> is_gujarati c = false.
Proof.
  intros H. apply punctuation_cases in H. vm_compute in H.
  repeat (destruct H as [<-|H]; [reflexivity|]). contradiction.
Qed.

Lemma letter_not_gujarati c :
  is_ascii_letter c = true -> is_gujarati c = false.
Proof.
  unfold is_ascii_letter, is_gujarati, in_range. intros H.
  repeat rewrite orb_true_iff in H. repeat rewrite andb_true_iff in H.
  repeat rewrite Z.leb_le in H. change (chr "A") with 65 in H.
  change (chr "Z") with 90 in H. change (chr "a") with 97 in H.
  change (chr "z") with 122 in H.
  apply andb_false_iff. left. apply Z.leb_gt. lia.
Qed.

End ClassifyFacts.

Section ClassifyProperties.

Context {ucd : UnicodeData}.

Ltac split_rules t :=
  unfold classify_token;
  destruct (re_match pat_email t) eqn:Hemail;
  [|destruct (re_match pat_url t) eqn:Hurl;
    [|destruct (re_match pat_decimal_number t) eqn:Hdecimal;
      [|destruct (re_match pat_date t) eqn:Hdate;
        [|destruct (re_match pat_integer t) eqn:Hinteger;
          [|destruct (re_match pat_punctuation t) eqn:Hpunct;
            [|destruct (re_match pat_gujarati_word t) eqn:Hguj;
              [|destruct (re_match pat_english_word t) eqn:Henglish]]]]]]].

(** X1: a label is given only to tokens of the matching shape: email
    only with an "@" in the token, url only with a "." or a ":",
    decimal_number, date and integer only when the first character is a
    decimal digit, punctuation, gujarati_word and english_word only when
    the first character is a listed punctuation symbol, a character of
    the Gujarati block, an ASCII letter; the empty token is other. *)
Theorem classify_token_label_conditions (t : pystr) :
  (classify_token t = "email"%string -> In (chr "@") t) /\
  (classify_token t = "url"%string -> In (chr ".") t \/ In (chr ":") t) /\
  (In (classify_token t) ["decimal_number"; "date"; "integer"]%string ->
   exists c tl, t = c :: tl /\ Py_UNICODE_ISDECIMAL c = true) /\
  (classify_token t = "punctuation"%string ->
   exists c tl, t = c :: tl /\ is_punctuation c = true) /\
  (classify_token t = "gujarati_word"%string ->
   exists c tl, t = c :: tl /\ is_gujarati c = true) /\
  (classify_token t = "english_word"%string ->
   exists c tl, t = c :: tl /\ is_ascii_letter c = true) /\
  (t = [] -> classify_token t = "other"%string).
Proof.
  repeat split.
  - split_rules t; intros H; try discriminate H.
    apply re_match_iff in Hemail as (pre & s' & -> & M).
    destruct (needs_outside_sound (fun c => negb (c =? chr "@")) _ _ _ _ M eq_refl)
      as (c & Hin & Hc).
    apply negb_false_iff, Z.eqb_eq in Hc. subst c. apply in_or_app. now left.
  - split_rules t; intros H; try discriminate H.
    apply re_match_iff in Hurl as (pre & s' & -> & M).
    destruct (needs_outside_sound
                (fun c => negb (c =? chr ".") && negb (c =? chr ":")) _ _ _ _ M eq_refl)
      as (c & Hin & Hc).
    apply andb_false_iff in Hc as [Hc|Hc];
      apply negb_false_iff, Z.eqb_eq in Hc; subst c;
      [left|right]; apply in_or_app; now left.
  - split_rules t; intros H; simpl in H;
      try (repeat (destruct H as [H|H]; try discriminate H); contradiction).
    + exact (re_match_numeric pat_decimal_number t eq_refl Hdecimal).
    + exact (re_match_numeric pat_date t eq_refl Hdate).
    + exact (re_match_numeric pat_integer t eq_refl Hinteger).
  - split_rules t; intros H; try discriminate H.
    rewrite re_match_punctuation in Hpunct.
    destruct t as [|c tl]; [discriminate|]. eauto.
  - split_rules t; intros H; try discriminate H.
    rewrite re_match_gujarati_word in Hguj.
    destruct t as [|c tl]; [discriminate|]. eauto.
  - split_rules t; intros H; try discriminate H.
    rewrite re_match_english_word in Henglish.
    destruct t as [|c tl]; [discriminate|]. eauto.
  - intros ->. reflexivity.
Qed.

(** X2: a non-empty token of ASCII letters only is an english_word. *)
Theorem classify_letters_english_word (t : pystr) :
  t <> [] -> forallb is_ascii_letter t = true ->
  classify_token t = "english_word"%string.
Proof.
  intros Hne Ht. unfold classify_token.
  rewrite (re_match_needs_outside is_ascii_letter pat_email) by auto.
  rewrite (re_match_needs_outside is_ascii_letter pat_url) by auto.
  rewrite (re_match_needs_outside is_ascii_letter pat_decimal_number) by auto.
  rewrite (re_match_needs_outside is_ascii_letter pat_date) by auto.
  destruct t as [|c tl]; [contradiction|].
  simpl in Ht. apply andb_true_iff in Ht as [Hc _].
  destruct (re_match pat_integer (c :: tl)) eqn:E.
  { destruct (re_match_numeric pat_integer _ eq_refl E) as (c' & tl' & [= <- <-] & Hd).
    rewrite (letter_not_decimal c Hc) in Hd. discriminate. }
  rewrite re_match_punctuation, re_match_gujarati_word, re_match_english_word.
  destruct (is_punctuation c) eqn:Hp.
  { rewrite (punctuation_not_letter c Hp) in Hc. discriminate. }
  rewrite (letter_not_gujarati c Hc), Hc. reflexivity.
Qed.

(** X3: a non-empty token of decimal digits only (ASCII or not) is an
    integer. *)
Theorem classify_digits_integer (t : pystr) :
  t <> [] -> forallb Py_UNICODE_ISDECIMAL t = true ->
  classify_token t = "integer"%string.
Proof.
  intros Hne Ht. unfold classify_token.
  rewrite (re_match_needs_outside Py_UNICODE_ISDECIMAL pat_email) by auto.
  rewrite (re_match_needs_outside Py_UNICODE_ISDECIMAL pat_url) by auto.
  rewrite (re_match_needs_outside Py_UNICODE_ISDECIMAL pat_decimal_number) by auto.
  rewrite (re_match_needs_outside Py_UNICODE_ISDECIMAL pat_date) by auto.
  now rewrite re_match_integer_digits.
Qed.

(** X4: a token of characters of the Gujarati block that does not start
    with a decimal digit is a gujarati_word. *)
Theorem classify_gujarati_word (c : char) (tl : pystr) :
  forallb is_gujarati (c :: tl) = true -> Py_UNICODE_ISDECIMAL c = false ->
  classify_token (c :: tl) = "gujarati_word"%string.
Proof.
  intros Ht Hd. unfold classify_token.
  rewrite (re_match_needs_outside is_gujarati pat_email) by auto.
  rewrite (re_match_needs_outside is_gujarati pat_url) by auto.
  rewrite (re_match_needs_outside is_gujarati pat_decimal_number) by auto.
  rewrite (re_match_needs_outside is_gujarati pat_date) by auto.
  simpl in Ht. apply andb_true_iff in Ht as [Hc _].
  destruct (re_match pat_integer (c :: tl)) eqn:E.
  { destruct (re_match_numeric pat_integer _ eq_refl E) as (c' & tl' & [= <- <-] & Hd').
    rewrite Hd in Hd'. discriminate. }
  rewrite re_match_punctuation, re_match_gujarati_word.
  destruct (is_punctuation c) eqn:Hp.
  { rewrite (punctuation_not_gujarati c Hp) in Hc. discriminate. }
  rewrite Hc. reflexivity.
Qed.

(** X5: a token that is one listed punctuation symbol is punctuation. *)
Theorem classify_single_punctuation (c : char) :
  is_punctuation c = true -> classify_token [c] = "punctuation"%string.
Proof.
  intros Hc. unfold classify_token.
  destruct (re_match pat_email [c]) eqn:E1;
    [apply re_match_min_width in E1; simpl in E1; lia|].
  destruct (re_match pat_url [c]) eqn:E2;
    [apply re_match_min_width in E2; simpl in E2; lia|].
  destruct (re_match pat_decimal_number [c]) eqn:E3;
    [apply re_match_min_width in E3; simpl in E3; lia|].
  destruct (re_match pat_date [c]) eqn:E4;
    [apply re_match_min_width in E4; simpl in E4; lia|].
  destruct (re_match pat_integer [c]) eqn:E5.
  { destruct (re_match_numeric pat_integer _ eq_refl E5) as (c' & tl' & [= <- <-] & Hd).
    rewrite (punctuation_not_decimal c Hc) in Hd. discriminate. }
  rewrite re_match_punctuation, Hc. reflexivity.
Qed.

End ClassifyProperties.

Lemma classify_token_label_conditions_witness :
  In (chr "@") (str "a@b.co").
Proof.
  apply (proj1 (classify_token_label_conditions (ucd := rows_only) (str "a@b.co"))).
  vm_compute. reflexivity.
Defined.

Lemma classify_letters_english_word_witness :
  classify_token (ucd := rows_only) (str "hello") = "english_word"%string.
Proof.
  apply classify_letters_english_word; [discriminate|reflexivity].
Defined.

Lemma classify_digits_integer_witness :
  classify_token (ucd := rows_only) (str "2025") = "integer"%string.
Proof.
  apply classify_digits_integer; [discriminate|reflexivity].
Defined.

Lemma classify_gujarati_word_witness :
  classify_token (ucd := rows_only) word_chhe = "gujarati_word"%string.
Proof.
  apply classify_gujarati_word; reflexivity.
Defined.

Lemma classify_single_punctuation_witness :
  classify_token (ucd := rows_only) (str "!") = "punctuation"%string.
Proof.
  apply classify_single_punctuation. reflexivity.
Defined.

(** ** The tokens of [word_tokenize] *)

Section TokenProperties.

Context {ucd : UnicodeData}.

Lemma interleaved_prepend toks x s :
  interleaved toks s -> interleaved toks (x ++ s).
Proof.
  intros H. destruct H as [s|gap t toks s H]; [constructor|].
  rewrite app_assoc. now constructor.
Qed.

Lemma interleaved_filter (fs : list found) (tr : pystr) :
  interleaved (filter kept (map (fun f : found => snd f) fs)) (flatten (fs, tr)).
Proof.
  induction fs as [|f fs IH].
  - constructor.
  - change (flatten (f :: fs, tr)) with (flatten (emit f (fs, tr))).
    rewrite flatten_emit. cbn [map filter].
    destruct (kept (snd f)).
    + now constructor.
    + apply interleaved_prepend, interleaved_prepend. exact IH.
Qed.

Lemma tokens_of_interleaved (s : pystr) : interleaved (tokens_of s) s.
Proof.
  pose proof (scan_flatten token_here s None 0 []) as E. simpl in E.
  rewrite <- E at 2. unfold tokens_of.
  destruct (scan token_here None s 0 []) as [fs tr]. apply interleaved_filter.
Qed.

(** [^\s+$] matches every non-empty text of whitespace. *)
Lemma pure_whitespace_complete (t : pystr) :
  t <> [] -> blank t = true -> re_match pure_whitespace t = true.
Proof.
  intros Hne Hb. apply re_match_iff. exists t, []. split; [now rewrite app_nil_r|].
  unfold pure_whitespace, cat. cbn [fold_right].
  change t with ([] ++ t) at 1. constructor; [constructor|].
  rewrite <- (app_nil_r t) at 1. constructor.
  - constructor.
    + unfold blank in Hb. rewrite forallb_forall in *.
      intros c Hin. rewrite space_mem. auto.
    + destruct t; [contradiction|simpl; lia].
    + discriminate.
  - constructor. reflexivity.
Qed.

Lemma not_blank_has_char (t : pystr) :
  blank t = false -> exists c, In c t /\ Py_UNICODE_ISSPACE c = false.
Proof.
  unfold blank. induction t as [|c t IH]; simpl; [discriminate|].
  destruct (Py_UNICODE_ISSPACE c) eqn:E; simpl.
  - intros H. destruct (IH H) as (x & Hin & Hx). eauto.
  - intros _. eauto.
Qed.

Lemma tokens_of_nonblank (s tok : pystr) :
  In tok (tokens_of s) ->
  tok <> [] /\ exists c, In c tok /\ Py_UNICODE_ISSPACE c = false.
Proof.
  unfold tokens_of. intros H. apply filter_In in H as [Hin Hk].
  apply in_map_iff in Hin as (f & <- & Hf).
  assert (Hne : snd f <> []).
  { pose proof (scan_found token_here
                  (fun g t => (g < length token_pattern)%nat /\ t <> [])) as Hs.
    specialize (Hs (fun adv p s0 g n H => token_here_sound adv p s0 g n H) s None 0%nat []).
    rewrite Forall_forall in Hs. exact (proj2 (Hs f Hf)). }
  split; [exact Hne|]. apply not_blank_has_char.
  destruct (blank (snd f)) eqn:Hb; [|reflexivity].
  unfold kept in Hk. rewrite (pure_whitespace_complete _ Hne Hb) in Hk. discriminate.
Qed.

(** X6: [word_tokenize] never raises; the tokens it returns are
    consecutive, non-overlapping pieces of the text in the order of
    appearance, and each is non-empty and holds a character that is not
    whitespace. *)
Theorem word_tokenize_pieces (t : pystr) :
  exists toks,
    word_tokenize t = Some toks /\
    interleaved toks t /\
    Forall (fun tok => tok <> [] /\
                       exists c, In c tok /\ Py_UNICODE_ISSPACE c = false) toks.
Proof.
  exists (tokens_of t). split; [apply word_tokenize_spec|].
  split; [apply tokens_of_interleaved|].
  apply Forall_forall. intros tok. apply tokens_of_nonblank.
Qed.

(** X7: on an empty or whitespace-only text [word_tokenize] returns no
    token. *)
Theorem word_tokenize_blank (t : pystr) :
  blank t = true -> word_tokenize t = Some [].
Proof.
  intros Hb. rewrite word_tokenize_spec. f_equal.
  destruct (tokens_of t) as [|tok toks] eqn:E; [reflexivity|].
  assert (Hin : In tok (tokens_of t)) by (rewrite E; now left).
  destruct (tokens_of_nonblank _ _ Hin) as (_ & c & Hc & Hs).
  unfold blank in Hb. rewrite forallb_forall in Hb.
  rewrite (Hb c (tokens_of_in_text _ _ _ Hin Hc)) in Hs. discriminate.
Qed.

Lemma space_rows_spec c : Py_UNICODE_ISSPACE c = in_ranges space_rows c.
Proof. reflexivity. Qed.

Lemma range_disjoint rows lo hi c :
  forallb (fun r => (hi <? fst r) || (snd r <? lo)) rows = true ->
  in_range lo hi c = true -> in_ranges rows c = false.
Proof.
  unfold in_ranges, in_range. intros Hd Hc.
  apply andb_true_iff in Hc as [H1 H2]. apply Z.leb_le in H1, H2.
  induction rows as [|[a b] rows IH]; [reflexivity|].
  simpl in Hd. apply andb_true_iff in Hd as [Hr Hd]. simpl.
  rewrite (IH Hd), orb_false_r.
  apply orb_true_iff in Hr as [Hr|Hr]; apply Z.ltb_lt in Hr;
    apply andb_false_iff; [left|right]; apply Z.leb_gt; lia.
Qed.

Lemma decimal_rows_not_space c :
  tabulated c = true -> in_ranges decimal_rows c = true ->
  Py_UNICODE_ISSPACE c = false.
Proof.
  intros _ H. unfold in_ranges, decimal_rows in H. cbn [existsb fst snd] in H.
  rewrite orb_false_r in H. rewrite space_rows_spec.
  apply orb_true_iff in H as [H|H]; eapply range_disjoint; eauto; reflexivity.
Qed.

Lemma isdecimal_not_space_elsewhere :
  (forall c, decimal_elsewhere c = true -> Py_UNICODE_ISSPACE c = false) ->
  forall c, Py_UNICODE_ISDECIMAL c = true -> Py_UNICODE_ISSPACE c = false.
Proof.
  intros H c. unfold Py_UNICODE_ISDECIMAL. destruct (tabulated c) eqn:E.
  - now apply decimal_rows_not_space.
  - apply H.
Qed.

Section NoSpace.

Hypothesis isdecimal_not_space :
  forall c, Py_UNICODE_ISDECIMAL c = true -> Py_UNICODE_ISSPACE c = false.

Lemma class_space_free_sound cs c :
  class_space_free cs = true -> cset_mem cs c = true ->
  Py_UNICODE_ISSPACE c = false.
Proof.
  unfold class_space_free, cset_mem. destruct (negate cs); simpl; intros Hf Hm.
  - apply negb_true_iff in Hm.
    destruct (Py_UNICODE_ISSPACE c) eqn:Hs; [|reflexivity].
    apply existsb_exists in Hf as (i & Hin & Hi).
    destruct i; try discriminate.
    assert (existsb (fun i => item_mem i c) (items cs) = true)
      by (apply existsb_exists; exists CSpace; auto).
    congruence.
  - apply existsb_exists in Hm as (i & Hin & Hi).
    rewrite forallb_forall in Hf. specialize (Hf i Hin).
    destruct i as [x|lo hi| |]; cbn [item_space_free item_mem] in Hf, Hi.
    + apply Z.eqb_eq in Hi. subst. now apply negb_true_iff.
    + rewrite space_rows_spec. eapply range_disjoint; eauto.
    + discriminate.
    + now apply isdecimal_not_space.
Qed.

Lemma token_match_space_free adv p s g n :
  token_here adv p s = Some (g, n) ->
  kept (firstn n s) = true ->
  Forall (fun c => Py_UNICODE_ISSPACE c = false) (firstn n s).
Proof.
  intros H Hk. pose proof (token_here_sound _ _ _ _ _ H) as [Hg Hne].
  unfold token_here in H.
  destruct (match_groups_sound _ _ _ _ _ _ _ H) as (_ & r & Hr & Hm).
  destruct (match_here_firstn _ _ _ _ _ Hm) as (s' & _ & M & _).
  pose proof (matches_classes _ _ _ _ M) as Hcl.
  rewrite Nat.sub_0_r in Hr.
  assert (Hcases :
    forallb class_space_free (classes_of r) = true \/ r = pat_whitespace).
  { do 9 (destruct g as [|g];
          [injection Hr as <-; first [left; reflexivity|right; reflexivity]|]).
    unfold token_pattern, patterns in Hg. simpl in Hg. lia. }
  destruct Hcases as [Hfree| ->].
  - eapply Forall_impl; [|exact Hcl]. intros c (cs & Hin & Hc).
    rewrite forallb_forall in Hfree. eapply class_space_free_sound; eauto.
  - exfalso. unfold kept in Hk.
    rewrite pure_whitespace_complete in Hk; [discriminate|exact Hne|].
    unfold blank. apply forallb_forall. intros c Hin.
    rewrite Forall_forall in Hcl. destruct (Hcl c Hin) as (cs & [<-|[]] & Hc).
    now rewrite <- space_mem.
Qed.

Lemma tokens_of_space_free (t tok : pystr) :
  In tok (tokens_of t) -> Forall (fun c => Py_UNICODE_ISSPACE c = false) tok.
Proof.
  unfold tokens_of. intros H. apply filter_In in H as [Hin Hk].
  apply in_map_iff in Hin as (f & <- & Hf).
  pose proof (scan_found token_here
    (fun (g : nat) m => kept m = true -> Forall (fun c => Py_UNICODE_ISSPACE c = false) m)) as Hs.
  specialize (Hs (fun adv p s0 g n H => token_match_space_free adv p s0 g n H) t None 0%nat []).
  rewrite Forall_forall in Hs. exact (Hs f Hf Hk).
Qed.

End NoSpace.

(** X8: where no decimal digit of the Unicode table is a whitespace
    character, no token [word_tokenize] returns holds a whitespace
    character. *)
Theorem word_tokenize_no_whitespace (t : pystr) :
  (forall c, decimal_elsewhere c = true -> Py_UNICODE_ISSPACE c = false) ->
  exists toks,
    word_tokenize t = Some toks /\
    Forall (Forall (fun c => Py_UNICODE_ISSPACE c = false)) toks.
Proof.
  intros H. exists (tokens_of t). split; [apply word_tokenize_spec|].
  apply Forall_forall. intros tok.
  apply tokens_of_space_free. now apply isdecimal_not_space_elsewhere.
Qed.

End TokenProperties.

Lemma word_tokenize_blank_witness :
  word_tokenize (ucd := rows_only) (str "  ") = Some [].
Proof. apply word_tokenize_blank. reflexivity. Defined.

Lemma word_tokenize_no_whitespace_witness :
  exists toks,
    word_tokenize (ucd := rows_only) (str "a b") = Some toks /\
    Forall (Forall (fun c => Py_UNICODE_ISSPACE c = false)) toks.
Proof.
  apply word_tokenize_no_whitespace. intros c H. discriminate H.
Defined.

(** ** More on [str.strip] *)

Lemma lstrip_blank_prefix (s : pystr) :
  exists pre, blank pre = true /\ s = pre ++ lstrip s.
Proof.
  induction s as [|c tl (pre & Hb & E)]; simpl.
  - now exists [].
  - destruct (Py_UNICODE_ISSPACE c) eqn:Hc.
    + exists (c :: pre). simpl. rewrite Hc, Hb. split; [reflexivity|now f_equal].
    + now exists [].
Qed.

Lemma blank_app (a b : pystr) : blank (a ++ b) = blank a && blank b.
Proof. apply forallb_app. Qed.

Lemma blank_rev (a : pystr) : blank (rev a) = blank a.
Proof.
  induction a as [|c a IH]; [reflexivity|].
  simpl. rewrite blank_app, IH. simpl. rewrite andb_true_r. apply andb_comm.
Qed.

Lemma lstrip_app_blank (w x : pystr) : blank w = true -> lstrip (w ++ x) = lstrip x.
Proof.
  induction w as [|c w IH]; simpl; [reflexivity|].
  intros H. apply andb_true_iff in H as [Hc Hw]. rewrite Hc. auto.
Qed.

Lemma lstrip_blank (w : pystr) : blank w = true -> lstrip w = [].
Proof.
  intros H. rewrite <- (app_nil_r w). now rewrite lstrip_app_blank.
Qed.

Lemma rstrip_app_blank (x w : pystr) : blank w = true -> rstrip (x ++ w) = rstrip x.
Proof.
  intros H. unfold rstrip. rewrite rev_app_distr, lstrip_app_blank; [reflexivity|].
  now rewrite blank_rev.
Qed.

Lemma lstrip_app_right (x w : pystr) :
  blank w = true -> exists w', blank w' = true /\ lstrip (x ++ w) = lstrip x ++ w'.
Proof.
  intros Hw. induction x as [|c x IH]; simpl.
  - exists []. now rewrite lstrip_blank.
  - destruct (Py_UNICODE_ISSPACE c); [exact IH|]. now exists w.
Qed.

Lemma strip_app_blank_l (w x : pystr) : blank w = true -> strip (w ++ x) = strip x.
Proof. intros H. unfold strip. now rewrite lstrip_app_blank. Qed.

Lemma strip_app_blank_r (x w : pystr) : blank w = true -> strip (x ++ w) = strip x.
Proof.
  intros H. unfold strip. destruct (lstrip_app_right x w H) as (w' & Hw' & ->).
  now apply rstrip_app_blank.
Qed.

Lemma rstrip_blank_suffix (s : pystr) :
  exists post, blank post = true /\ s = rstrip s ++ post.
Proof.
  unfold rstrip. destruct (lstrip_blank_prefix (rev s)) as (pre & Hb & E).
  exists (rev pre). rewrite blank_rev. split; [exact Hb|].
  rewrite <- rev_app_distr, <- E. now rewrite rev_involutive.
Qed.

(** A text is its stripped text between two runs of whitespace. *)
Lemma strip_decompose (s : pystr) :
  exists w1 w2, blank w1 = true /\ blank w2 = true /\ s = w1 ++ strip s ++ w2.
Proof.
  destruct (lstrip_blank_prefix s) as (w1 & H1 & E1).
  destruct (rstrip_blank_suffix (lstrip s)) as (w2 & H2 & E2).
  exists w1, w2. repeat split; auto. unfold strip. now rewrite <- E2.
Qed.

Lemma strip_blank (s : pystr) : blank s = true -> strip s = [].
Proof. intros H. unfold strip. now rewrite lstrip_blank. Qed.

Lemma strip_empty_blank (s : pystr) : strip s = [] -> blank s = true.
Proof.
  intros E. destruct (strip_decompose s) as (w1 & w2 & H1 & H2 & Es).
  rewrite Es, E, !blank_app, H1, H2. reflexivity.
Qed.

Lemma truthy_strip (s : pystr) : truthy (strip s) = negb (blank s).
Proof.
  destruct (blank s) eqn:Hb.
  - now rewrite strip_blank.
  - destruct (strip s) eqn:E; [|reflexivity].
    rewrite (strip_empty_blank s E) in Hb. discriminate.
Qed.

(** A text with no whitespace at either end is not changed. *)
Lemma strip_clean (s : pystr) :
  (forall c, hd_error s = Some c -> Py_UNICODE_ISSPACE c = false) ->
  (forall c, hd_error (rev s) = Some c -> Py_UNICODE_ISSPACE c = false) ->
  strip s = s.
Proof.
  intros Hh Hl.
  assert (Hls : forall x, (forall c, hd_error x = Some c -> Py_UNICODE_ISSPACE c = false) ->
                     lstrip x = x).
  { intros [|c x] H; [reflexivity|]. simpl. now rewrite (H c eq_refl). }
  unfold strip, rstrip. rewrite (Hls s Hh), (Hls (rev s) Hl). apply rev_involutive.
Qed.

Lemma strip_idempotent (s : pystr) : strip (strip s) = strip s.
Proof. apply strip_clean; [apply strip_head|apply strip_last]. Qed.

(** ** Cutting at separators *)

Section SplitAt.

Variable f : char -> bool.

Lemma split_at_nonempty (s : pystr) : split_at f s <> [].
Proof.
  destruct s as [|c tl]; simpl; [discriminate|].
  destruct (f c); [discriminate|]. destruct (split_at f tl); discriminate.
Qed.

Lemma split_at_free (x : pystr) :
  forallb (fun c => negb (f c)) x = true -> split_at f x = [x].
Proof.
  induction x as [|c x IH]; simpl; [reflexivity|].
  intros H. apply andb_true_iff in H as [Hc Hx]. apply negb_true_iff in Hc.
  now rewrite Hc, IH.
Qed.

(** The pieces of a text cut at a separator are those of its halves. *)
Lemma split_at_app (a b : pystr) (c : char) :
  f c = true -> split_at f (a ++ c :: b) = split_at f a ++ split_at f b.
Proof.
  intros Hc. induction a as [|x a IH]; simpl.
  - now rewrite Hc.
  - rewrite IH. destruct (f x); [reflexivity|].
    pose proof (split_at_nonempty a). destruct (split_at f a); [contradiction|reflexivity].
Qed.

Lemma split_at_prefix (w x : pystr) :
  forallb (fun c => negb (f c)) w = true ->
  exists p ps, split_at f x = p :: ps /\ split_at f (w ++ x) = (w ++ p) :: ps.
Proof.
  intros Hw. induction w as [|c w IH]; simpl.
  - pose proof (split_at_nonempty x). destruct (split_at f x) as [|p ps]; [contradiction|].
    now exists p, ps.
  - simpl in Hw. apply andb_true_iff in Hw as [Hc Hw]. apply negb_true_iff in Hc.
    destruct (IH Hw) as (p & ps & E1 & E2). rewrite Hc, E2. now exists p, ps.
Qed.

Lemma split_at_suffix (x w : pystr) :
  forallb (fun c => negb (f c)) w = true ->
  exists ps p, split_at f x = ps ++ [p] /\ split_at f (x ++ w) = ps ++ [p ++ w].
Proof.
  intros Hw. induction x as [|c x (ps & p & E1 & E2)]; simpl.
  - exists [], []. rewrite (split_at_free w Hw). auto.
  - destruct (f c).
    + exists ([] :: ps), p. rewrite E1, E2. auto.
    + rewrite E1, E2. destruct ps as [|q ps]; simpl.
      * exists [], (c :: p). auto.
      * exists ((c :: q) :: ps), p. auto.
Qed.

End SplitAt.

(** ** [sentence_tokenize] cuts at the terminators *)

Section SentenceProperties.

Context {ucd : UnicodeData}.

Lemma blank_terminator_free (w : pystr) :
  blank w = true -> forallb (fun c => negb (is_terminator c)) w = true.
Proof.
  unfold blank. rewrite !forallb_forall. intros H c Hin.
  destruct (is_terminator c) eqn:E; [|reflexivity].
  specialize (H c Hin). rewrite (terminators_not_space c E) in H. discriminate.
Qed.

Lemma between_app (a b : pystr) (c : char) :
  is_terminator c = true ->
  sentences_between_terminators (a ++ c :: b) =
  sentences_between_terminators a ++ sentences_between_terminators b.
Proof.
  intros Hc. unfold sentences_between_terminators.
  now rewrite split_at_app, map_app, filter_app.
Qed.

Lemma between_free (x : pystr) :
  forallb (fun c => negb (is_terminator c)) x = true ->
  sentences_between_terminators x = filter truthy [strip x].
Proof.
  intros H. unfold sentences_between_terminators. now rewrite split_at_free.
Qed.

Lemma between_blank_l (w x : pystr) :
  blank w = true ->
  sentences_between_terminators (w ++ x) = sentences_between_terminators x.
Proof.
  intros Hw. unfold sentences_between_terminators.
  destruct (split_at_prefix is_terminator w x (blank_terminator_free w Hw))
    as (p & ps & -> & ->).
  simpl. now rewrite strip_app_blank_l.
Qed.

Lemma between_blank_r (x w : pystr) :
  blank w = true ->
  sentences_between_terminators (x ++ w) = sentences_between_terminators x.
Proof.
  intros Hw. unfold sentences_between_terminators.
  destruct (split_at_suffix is_terminator x w (blank_terminator_free w Hw))
    as (ps & p & -> & ->).
  rewrite !map_app, !filter_app. simpl. now rewrite strip_app_blank_r.
Qed.

Lemma between_terminators_l (ts x : pystr) :
  forallb is_terminator ts = true ->
  sentences_between_terminators (ts ++ x) = sentences_between_terminators x.
Proof.
  induction ts as [|c ts IH]; simpl; [reflexivity|].
  intros H. apply andb_true_iff in H as [Hc Hts].
  change (c :: ts ++ x) with ([] ++ c :: (ts ++ x)).
  rewrite between_app by exact Hc. simpl. auto.
Qed.

(** A match of the sentence pattern is a non-empty run of terminators
    followed by a run of whitespace. *)
Lemma sentence_here_shape adv p s g n :
  sentence_here adv p s = Some (g, n) ->
  exists c ts ws,
    firstn n s = c :: ts ++ ws /\ is_terminator c = true /\
    forallb is_terminator ts = true /\ blank ws = true.
Proof.
  unfold sentence_here. intros H.
  destruct (match_groups_sound _ _ _ _ _ _ _ H) as (Hg & r & Hr & Hm).
  simpl in Hg. assert (g = 0%nat) by lia. subst g. injection Hr as <-.
  destruct (match_here_firstn _ _ _ _ _ Hm) as (s' & _ & M & _).
  unfold sentence_pattern in M.
  remember (firstn n s) as m eqn:Em. clear Em.
  inversion M as [| |r1 r2 p0 pre1 pre2 s0 M1 M2| | | | |]; subst.
  inversion M1 as [|cs lo hi p0 pre0 s0 Hall Hlo _| | | | | |]; subst.
  inversion M2 as [|cs lo hi p0 pre0 s0 Hall2 _ _| | | | | |]; subst.
  destruct pre1 as [|c ts]; [simpl in Hlo; lia|].
  simpl in Hall. apply andb_true_iff in Hall as [Hc Hts].
  exists c, ts, pre2. repeat split.
  - now rewrite <- terminator_mem.
  - rewrite forallb_forall in *. intros x Hx. rewrite <- terminator_mem. auto.
  - unfold blank. rewrite forallb_forall in *. intros x Hx.
    rewrite <- space_mem. auto.
Qed.

Lemma between_flatten (fs : list found) (tr : pystr) :
  Forall (fun f : found =>
            forallb (fun c => negb (is_terminator c)) (fst (fst f)) = true /\
            exists c ts ws,
              snd f = c :: ts ++ ws /\ is_terminator c = true /\
              forallb is_terminator ts = true /\ blank ws = true) fs ->
  forallb (fun c => negb (is_terminator c)) tr = true ->
  forall w, blank w = true ->
    sentences_between_terminators (w ++ flatten (fs, tr)) =
    filter truthy (map strip (map (fun f : found => fst (fst f)) fs ++ [tr])).
Proof.
  intros Hfs Htr. induction Hfs as [|f fs (Hg & c & ts & ws & Em & Hc & Hts & Hws) _ IH];
    intros w Hw.
  - unfold flatten. simpl. rewrite between_blank_l by exact Hw.
    now apply between_free.
  - change (flatten (f :: fs, tr)) with (flatten (emit f (fs, tr))).
    rewrite flatten_emit, Em. simpl app.
    rewrite app_assoc. rewrite between_app by exact Hc.
    rewrite between_blank_l by exact Hw. rewrite (between_free _ Hg).
    rewrite <- app_assoc, between_terminators_l by exact Hts.
    rewrite (IH ws Hws). cbn [map filter app].
    now destruct (truthy (strip (fst (fst f)))).
Qed.

Lemma map_filter_strip (l : list pystr) :
  map strip (filter (fun s => truthy (strip s)) l) = filter truthy (map strip l).
Proof.
  induction l as [|s l IH]; simpl; [reflexivity|].
  destruct (truthy (strip s)); simpl; now rewrite IH.
Qed.

Lemma forallb_Forall_free (x : pystr) :
  Forall (fun c => is_terminator c = false) x ->
  forallb (fun c => negb (is_terminator c)) x = true.
Proof.
  intros H. apply forallb_forall. rewrite Forall_forall in H.
  intros c Hin. now rewrite (H c Hin).
Qed.

Lemma split_between (t : pystr) :
  filter truthy (map strip (split sentence_pattern t)) =
  sentences_between_terminators t.
Proof.
  unfold split.
  change (fun adv : bool => match_groups adv [sentence_pattern] 0) with sentence_here.
  pose proof (scan_flatten sentence_here t None 0 []) as E. simpl in E.
  destruct (scan_gaps sentence_here (fun c => is_terminator c = false)) with
    (s := t) (p := @None char) (skip := 0%nat) (gap := @nil char) as [Hg Ht].
  { intros p c0 tl Hno. destruct (is_terminator c0) eqn:Hk; [|reflexivity].
    destruct (sentence_here_terminator p c0 tl Hk) as (g & n & Hm).
    exfalso. exact (Hno _ _ Hm). }
  { constructor. }
  pose proof (scan_found sentence_here
    (fun (g : nat) m => exists c ts ws,
         m = c :: ts ++ ws /\ is_terminator c = true /\
         forallb is_terminator ts = true /\ blank ws = true)
    (fun adv p s g n H => sentence_here_shape adv p s g n H) t None 0%nat []) as Hm.
  revert E Hg Ht Hm. destruct (scan sentence_here None t 0 []) as [fs tr].
  cbn [fst snd]. intros E Hg Ht Hm. rewrite <- E. symmetry.
  apply (between_flatten fs tr) with (w := []); [|now apply forallb_Forall_free|reflexivity].
  rewrite Forall_forall in *. intros f Hf. split.
  - apply forallb_Forall_free. exact (Hg f Hf).
  - exact (Hm f Hf).
Qed.

(** X9: [sentence_tokenize] returns the pieces of the text between
    terminator characters, each stripped of whitespace at both ends,
    the empty ones dropped; the whitespace the sentence pattern
    consumes and the strip of the whole text make no difference. *)
Theorem sentence_tokenize_between_terminators (t : pystr) :
  sentence_tokenize t = filter truthy (map strip (split_at is_terminator t)).
Proof.
  unfold sentence_tokenize. rewrite map_filter_strip, split_between.
  fold (sentences_between_terminators t).
  destruct (strip_decompose t) as (w1 & w2 & H1 & H2 & E).
  rewrite E at 2. rewrite between_blank_l by exact H1.
  now rewrite between_blank_r.
Qed.

Lemma sentence_tokenize_between (t : pystr) :
  sentence_tokenize t = sentences_between_terminators t.
Proof.
  unfold sentence_tokenize. rewrite map_filter_strip, split_between.
  destruct (strip_decompose t) as (w1 & w2 & H1 & H2 & E).
  rewrite E at 2. rewrite between_blank_l by exact H1.
  now rewrite between_blank_r.
Qed.

(** X10: a text without terminator is one sentence, its stripped text;
    an empty or whitespace-only text has no sentence. *)
Theorem sentence_tokenize_no_terminator (t : pystr) :
  forallb (fun c => negb (is_terminator c)) t = true ->
  sentence_tokenize t = if blank t then [] else [strip t].
Proof.
  intros H. rewrite sentence_tokenize_between, between_free by exact H.
  simpl. rewrite truthy_strip. now destruct (blank t).
Qed.

(** X11: segmenting a sentence again gives back that sentence. *)
Theorem sentence_tokenize_stable (t s : pystr) :
  In s (sentence_tokenize t) -> sentence_tokenize s = [s].
Proof.
  intros Hs.
  pose proof (proj1 (Forall_forall _ _) (sentence_tokenize_clean t) s Hs)
    as (Hne & Hh & Hl & Hterm).
  rewrite sentence_tokenize_between, between_free.
  - simpl. rewrite (strip_clean s Hh Hl). destruct s; [contradiction|reflexivity].
  - apply forallb_forall. intros c Hin. now rewrite (Hterm c Hin).
Qed.

(** X12: the sentences of a text cut at a terminator are the sentences
    of the part before it followed by those of the part after it. *)
Theorem sentence_tokenize_app (a b : pystr) (c : char) :
  is_terminator c = true ->
  sentence_tokenize (a ++ c :: b) = sentence_tokenize a ++ sentence_tokenize b.
Proof.
  intros Hc. rewrite !sentence_tokenize_between. now apply between_app.
Qed.

End SentenceProperties.

Lemma sentence_tokenize_no_terminator_witness :
  sentence_tokenize (ucd := rows_only) (str " ab c ") = [str "ab c"].
Proof.
  apply (sentence_tokenize_no_terminator (ucd := rows_only) (str " ab c ")).
  reflexivity.
Defined.

Lemma sentence_tokenize_stable_witness :
  sentence_tokenize (ucd := rows_only) (str "b c") = [str "b c"].
Proof.
  apply (sentence_tokenize_stable (ucd := rows_only) (str "a. b c! d")).
  vm_compute. tauto.
Defined.

Lemma sentence_tokenize_app_witness :
  sentence_tokenize (ucd := rows_only) (str "a b. c") =
  sentence_tokenize (ucd := rows_only) (str "a b") ++
  sentence_tokenize (ucd := rows_only) (str " c").
Proof.
  apply (sentence_tokenize_app (ucd := rows_only) (str "a b") (str " c") (chr ".")).
  reflexivity.
Defined.

Section SentencePieces.

Context {ucd : UnicodeData}.

Lemma interleaved_strip_head (p rest : pystr) (l : list pystr) :
  interleaved (filter truthy l) rest ->
  interleaved (filter truthy (strip p :: l)) (p ++ rest).
Proof.
  intros H. simpl. destruct (truthy (strip p)); simpl.
  - destruct (strip_decompose p) as (w1 & w2 & _ & _ & E).
    rewrite E at 2. rewrite <- !app_assoc. constructor.
    now apply interleaved_prepend.
  - now apply interleaved_prepend.
Qed.

Lemma split_at_interleaved (f : char -> bool) (t : pystr) :
  exists p ps rest,
    split_at f t = p :: ps /\ t = p ++ rest /\
    interleaved (filter truthy (map strip ps)) rest.
Proof.
  induction t as [|c tl (p & ps & rest & E & Et & Hi)]; simpl.
  - exists [], [], []. repeat split. constructor.
  - rewrite E. destruct (f c).
    + exists [], (p :: ps), (c :: tl). repeat split.
      rewrite Et. change (c :: p ++ rest) with ([c] ++ p ++ rest).
      apply interleaved_prepend.
      exact (interleaved_strip_head p rest _ Hi).
    + exists (c :: p), ps, rest. repeat split; [now rewrite Et|exact Hi].
Qed.

(** X13: the sentences [sentence_tokenize] returns are consecutive,
    non-overlapping pieces of the text, in the order of appearance. *)
Theorem sentence_tokenize_pieces (t : pystr) :
  interleaved (sentence_tokenize t) t.
Proof.
  rewrite sentence_tokenize_between. unfold sentences_between_terminators.
  destruct (split_at_interleaved is_terminator t) as (p & ps & rest & -> & Et & Hi).
  rewrite Et. exact (interleaved_strip_head p rest _ Hi).
Qed.

Lemma sentence_tokenize_blank (t : pystr) :
  blank t = true -> sentence_tokenize t = [].
Proof.
  intros Hb. rewrite sentence_tokenize_between, between_free.
  - simpl. now rewrite truthy_strip, Hb.
  - now apply blank_terminator_free.
Qed.

(** ** The documents of [tokenize_paragraph] *)

Lemma total_words_sum (l : list pystr) :
  forall acc,
    fold_left (fun n s => n + len (tokens_of s)) l acc =
    acc + sum (map word_count (map sentence_of l)).
Proof.
  induction l as [|s l IH]; intros acc; simpl.
  - lia.
  - rewrite IH. unfold sum. simpl. lia.
Qed.

(** X14: the document [tokenize_paragraph] builds is consistent: it
    keeps the paragraph and its length in code points, its sentences
    are those of [sentence_tokenize] in order, each sentence holds the
    tokens of [word_tokenize] on its text, their labels by
    [classify_token] and their number, and the total word count is the
    sum of the sentences' word counts. *)
Theorem tokenize_paragraph_consistent (paragraph : pystr) :
  exists doc,
    tokenize_paragraph paragraph = Some doc /\
    original_text doc = paragraph /\
    total_characters doc = len paragraph /\
    map text (sentences doc) = sentence_tokenize paragraph /\
    Forall (fun sent =>
              word_tokenize (text sent) = Some (words sent) /\
              classified_words sent =
                map (fun word => (word, classify_token word)) (words sent) /\
              word_count sent = len (words sent))
           (sentences doc) /\
    total_words doc = sum (map word_count (sentences doc)).
Proof.
  exists (document_of paragraph). split; [apply tokenize_paragraph_spec|].
  simpl. repeat split.
  - rewrite map_map. simpl. apply map_id.
  - apply Forall_forall. intros sent Hs. apply in_map_iff in Hs as (s & <- & _).
    simpl. repeat split. apply word_tokenize_spec.
  - rewrite total_words_sum. lia.
Qed.

(** X15: for an empty or whitespace-only paragraph [tokenize_paragraph]
    returns a document without sentences and with a word count of 0. *)
Theorem tokenize_paragraph_blank (paragraph : pystr) :
  blank paragraph = true ->
  tokenize_paragraph paragraph =
  Some {| original_text := paragraph; sentences := [];
          total_words := 0; total_characters := len paragraph |}.
Proof.
  intros Hb. rewrite tokenize_paragraph_spec.
  now rewrite (sentence_tokenize_blank paragraph Hb).
Qed.

(** ** More on [process_dataset] *)

Lemma process_dataset_spec (dataset : list (option pystr)) (max_examples : Z) :
  process_dataset dataset max_examples =
  Some (map (fun example => document_of (get_text example))
            (filter non_blank (firstn (Z.to_nat max_examples) dataset))).
Proof.
  unfold process_dataset. rewrite process_loop_spec, Z.sub_0_r. reflexivity.
Qed.

Lemma non_blank_spec (example : option pystr) :
  non_blank example = true ->
  blank (get_text example) = false /\ example = Some (get_text example).
Proof.
  unfold non_blank. rewrite truthy_strip. intros H.
  apply negb_true_iff in H. split; [exact H|].
  destruct example; [reflexivity|discriminate].
Qed.

(** X16: [process_dataset] returns at most [max_examples] documents
    (none for a limit of 0 or less) and at most one per record; every
    document is that of a record of the dataset whose text is not
    blank. *)
Theorem process_dataset_bounds (dataset : list (option pystr)) (max_examples : Z) :
  exists docs,
    process_dataset dataset max_examples = Some docs /\
    len docs <= Z.max 0 max_examples /\
    len docs <= len dataset /\
    Forall (fun doc =>
              blank (original_text doc) = false /\
              In (Some (original_text doc)) dataset /\
              tokenize_paragraph (original_text doc) = Some doc) docs.
Proof.
  eexists. split; [apply process_dataset_spec|].
  set (kept := filter non_blank (firstn (Z.to_nat max_examples) dataset)).
  assert (Hlen : (length kept <= length (firstn (Z.to_nat max_examples) dataset))%nat)
    by apply filter_length_le.
  rewrite length_firstn in Hlen. unfold len. rewrite length_map.
  repeat split; try lia.
  apply Forall_forall. intros doc Hd. apply in_map_iff in Hd as (e & <- & He).
  apply filter_In in He as [Hin Hnb]. simpl.
  destruct (non_blank_spec e Hnb) as [Hb He]. repeat split.
  - exact Hb.
  - rewrite <- He. rewrite <- (firstn_skipn (Z.to_nat max_examples) dataset).
    apply in_or_app. now left.
  - apply tokenize_paragraph_spec.
Qed.

Lemma firstn_le_app {A : Type} (l : list A) (n m : nat) :
  (n <= m)%nat -> exists more, firstn m l = firstn n l ++ more.
Proof.
  revert l m. induction n as [|n IH]; intros l m H.
  - now exists (firstn m l).
  - destruct m as [|m]; [lia|]. destruct l as [|a l]; [now exists []|].
    destruct (IH l m) as [more E]; [lia|]. exists more. simpl. now rewrite E.
Qed.

(** X17: raising the limit only appends documents: the result for a
    limit is a prefix of the result for any larger limit. *)
Theorem process_dataset_monotone (dataset : list (option pystr)) (m m' : Z) :
  m <= m' ->
  exists docs more,
    process_dataset dataset m = Some docs /\
    process_dataset dataset m' = Some (docs ++ more).
Proof.
  intros H. rewrite !process_dataset_spec.
  destruct (firstn_le_app dataset (Z.to_nat m) (Z.to_nat m')) as [more E]; [lia|].
  rewrite E, filter_app, map_app. eauto.
Qed.

(** X18: with a limit of at least the number of records, every
    non-blank record is tokenized: the texts of the documents are the
    non-blank texts of the dataset, in order. *)
Theorem process_dataset_all (dataset : list (option pystr)) (max_examples : Z) :
  len dataset <= max_examples ->
  exists docs,
    process_dataset dataset max_examples = Some docs /\
    map original_text docs =
    filter (fun s => negb (blank s)) (map get_text dataset).
Proof.
  intros H. eexists. split; [apply process_dataset_spec|].
  rewrite firstn_all2 by (unfold len in H; lia).
  rewrite map_map. simpl.
  induction dataset as [|e l IH]; [reflexivity|]. simpl.
  unfold non_blank at 1. rewrite truthy_strip.
  destruct (blank (get_text e)); simpl.
  - apply IH. unfold len in *. simpl length in H. lia.
  - f_equal. apply IH. unfold len in *. simpl length in H. lia.
Qed.

End SentencePieces.

(** ** More on [compute_corpus_statistics] *)

Lemma sum_app (a b : list Z) : sum (a ++ b) = sum a + sum b.
Proof. unfold sum. induction a as [|x a IH]; simpl; lia. Qed.

Lemma len_flat_map {A B : Type} (f : A -> list B) (l : list A) :
  len (flat_map f l) = sum (map (fun x => len (f x)) l).
Proof.
  induction l as [|x l IH]; [reflexivity|].
  simpl. rewrite len_app, IH. reflexivity.
Qed.

Lemma all_tokens_cons (d : Document) (data : list Document) :
  all_tokens (d :: data) = flat_map words (sentences d) ++ all_tokens data.
Proof. unfold all_tokens, all_sentences. simpl. apply flat_map_app. Qed.

Lemma all_tokens_app (a b : list Document) :
  all_tokens (a ++ b) = all_tokens a ++ all_tokens b.
Proof.
  unfold all_tokens, all_sentences. now rewrite !flat_map_app.
Qed.

Lemma len_all_tokens (data : list Document) :
  Forall (fun d => total_words d = len (flat_map words (sentences d))) data ->
  len (all_tokens data) = sum (map total_words data).
Proof.
  induction 1 as [|d data Hd _ IH]; [reflexivity|].
  rewrite all_tokens_cons, len_app, IH, <- Hd. reflexivity.
Qed.

Lemma document_of_total_words {ucd : UnicodeData} (p : pystr) :
  total_words (document_of p) = len (flat_map words (sentences (document_of p))).
Proof.
  simpl. rewrite total_words_sum, len_flat_map, !map_map. simpl. lia.
Qed.

(** X19: the statistics of the documents [process_dataset] returns are
    always computed (no step of the pipeline fails), and the counts
    agree with what the documents store: the number of words is the sum
    of their word totals, the number of sentences the sum of their
    sentence counts, the number of characters the sum of the lengths of
    their texts. *)
Theorem statistics_of_processed_dataset (ucd : UnicodeData)
    (dataset : list (option pystr)) (max_examples : Z) :
  exists docs stats,
    process_dataset dataset max_examples = Some docs /\
    compute_corpus_statistics docs = Some stats /\
    total_number_of_words stats = sum (map total_words docs) /\
    total_number_of_sentences stats = sum (map (fun d => len (sentences d)) docs) /\
    total_number_of_characters stats = sum (map (fun d => len (original_text d)) docs).
Proof.
  eexists. eexists. split; [apply process_dataset_spec|].
  split; [apply compute_corpus_statistics_spec|]. simpl.
  set (texts := filter non_blank (firstn (Z.to_nat max_examples) dataset)).
  repeat split.
  - apply len_all_tokens. apply Forall_forall. intros d Hd.
    apply in_map_iff in Hd as (e & <- & _). apply document_of_total_words.
  - unfold all_sentences. apply len_flat_map.
  - unfold sum. rewrite !map_map. reflexivity.
Qed.

Lemma nodup_length_le (l : list pystr) :
  (length (nodup pystr_eq_dec l) <= length l)%nat.
Proof.
  apply NoDup_incl_length; [apply NoDup_nodup|].
  intros x Hx. now apply nodup_In in Hx.
Qed.

(** X20: in the statistics the number of unique words is at most the
    number of words, both are non-negative, and one is 0 exactly when
    the other is. *)
Theorem unique_words_at_most_words (data : list Document) :
  exists stats,
    compute_corpus_statistics data = Some stats /\
    0 <= total_unique_words stats <= total_number_of_words stats /\
    (total_unique_words stats = 0 <-> total_number_of_words stats = 0).
Proof.
  eexists. split; [apply compute_corpus_statistics_spec|]. simpl.
  unfold distinct_tokens, len. pose proof (nodup_length_le (all_tokens data)).
  split; [lia|]. destruct (all_tokens data) as [|w l] eqn:E; [simpl; tauto|].
  assert (Hin : In w (nodup pystr_eq_dec (w :: l))) by (apply nodup_In; now left).
  destruct (nodup pystr_eq_dec (w :: l)); [contradiction|]. simpl length. lia.
Qed.

Lemma concat_length_perm (l l' : list pystr) :
  Permutation l l' -> length (concat l) = length (concat l').
Proof.
  induction 1; simpl; rewrite ?length_app; try lia.
Qed.

Lemma sum_perm (l l' : list Z) : Permutation l l' -> sum l = sum l'.
Proof. unfold sum. induction 1; simpl; lia. Qed.

Lemma nodup_perm (l l' : list pystr) :
  Permutation l l' ->
  Permutation (nodup pystr_eq_dec l) (nodup pystr_eq_dec l').
Proof.
  intros H. apply NoDup_Permutation; try apply NoDup_nodup.
  intros x. rewrite !nodup_In. split; intros Hx.
  - eapply Permutation_in; eauto.
  - eapply Permutation_in; [apply Permutation_sym|]; eauto.
Qed.

(** X21: the statistics do not depend on the order of the documents. *)
Theorem statistics_order_independent (data data' : list Document) :
  Permutation data data' ->
  compute_corpus_statistics data = compute_corpus_statistics data'.
Proof.
  intros H. rewrite !compute_corpus_statistics_spec.
  assert (Hs : Permutation (all_sentences data) (all_sentences data'))
    by (unfold all_sentences; now apply Permutation_flat_map).
  assert (Ht : Permutation (all_tokens data) (all_tokens data'))
    by (unfold all_tokens; now apply Permutation_flat_map).
  assert (E1 : len (all_sentences data) = len (all_sentences data'))
    by (unfold len; now rewrite (Permutation_length Hs)).
  assert (E2 : len (all_tokens data) = len (all_tokens data'))
    by (unfold len; now rewrite (Permutation_length Ht)).
  assert (E3 : token_characters data = token_characters data')
    by (unfold token_characters, len; now rewrite (concat_length_perm _ _ Ht)).
  assert (E4 : len (distinct_tokens data) = len (distinct_tokens data'))
    by (unfold distinct_tokens, len;
        now rewrite (Permutation_length (nodup_perm _ _ Ht))).
  assert (E5 : fold_right Z.add 0 (map total_characters data) =
               fold_right Z.add 0 (map total_characters data'))
    by (apply sum_perm; now apply Permutation_map).
  now rewrite E1, E2, E3, E4, E5.
Qed.

(** X22: the counts of a corpus made of two corpora are the sums of
    their counts; its number of unique words is at least that of each
    part and at most their sum. *)
Theorem statistics_of_concatenation (a b : list Document) :
  exists sa sb sab,
    compute_corpus_statistics a = Some sa /\
    compute_corpus_statistics b = Some sb /\
    compute_corpus_statistics (a ++ b) = Some sab /\
    total_number_of_sentences sab =
      total_number_of_sentences sa + total_number_of_sentences sb /\
    total_number_of_words sab =
      total_number_of_words sa + total_number_of_words sb /\
    total_number_of_characters sab =
      total_number_of_characters sa + total_number_of_characters sb /\
    total_unique_words sa <= total_unique_words sab /\
    total_unique_words sb <= total_unique_words sab /\
    total_unique_words sab <= total_unique_words sa + total_unique_words sb.
Proof.
  do 3 eexists. rewrite !compute_corpus_statistics_spec.
  split; [reflexivity|]. split; [reflexivity|]. split; [reflexivity|]. simpl.
  unfold all_sentences, distinct_tokens. rewrite all_tokens_app, flat_map_app.
  rewrite !len_app, map_app.
  change (fold_right Z.add 0) with sum. rewrite sum_app.
  split; [reflexivity|]. split; [reflexivity|]. split; [reflexivity|].
  unfold len. set (x := all_tokens a). set (y := all_tokens b).
  assert (H1 : (length (nodup pystr_eq_dec x) <= length (nodup pystr_eq_dec (x ++ y)))%nat).
  { apply NoDup_incl_length; [apply NoDup_nodup|].
    intros w Hw. apply nodup_In. apply nodup_In in Hw. apply in_or_app. now left. }
  assert (H2 : (length (nodup pystr_eq_dec y) <= length (nodup pystr_eq_dec (x ++ y)))%nat).
  { apply NoDup_incl_length; [apply NoDup_nodup|].
    intros w Hw. apply nodup_In. apply nodup_In in Hw. apply in_or_app. now right. }
  assert (H3 : (length (nodup pystr_eq_dec (x ++ y)) <=
                length (nodup pystr_eq_dec x ++ nodup pystr_eq_dec y))%nat).
  { apply NoDup_incl_length; [apply NoDup_nodup|].
    intros w Hw. apply nodup_In in Hw. apply in_or_app.
    apply in_app_or in Hw as [Hw|Hw]; [left|right]; now apply nodup_In. }
  rewrite length_app in H3. lia.
Qed.

Lemma statistics_order_independent_witness :
  compute_corpus_statistics (corpus_4_3 ++ corpus_aaa) =
  compute_corpus_statistics (corpus_aaa ++ corpus_4_3).
Proof.
  apply statistics_order_independent. apply Permutation_app_comm.
Defined.

(** ** Matching is local to the text between whitespace *)

Section Locality.

Context {ucd : UnicodeData}.

Variable sp : char.
Variable y : pystr.
Hypothesis sp_not_word : is_word sp = false.

Lemma repeat_one_local {A : Type} (cs : cset) (k1 k2 : cont (A := A)) :
  cset_mem cs sp = false ->
  (forall p' x', k1 p' (x' ++ sp :: y) = k2 p' x') ->
  forall x lo hi p,
    repeat_one cs lo hi p (x ++ sp :: y) k1 = repeat_one cs lo hi p x k2.
Proof.
  intros Hc Hk. induction x as [|c x IH]; intros lo hi p.
  - pose proof (Hk p []) as E. simpl in E. simpl. rewrite Hc.
    destruct hi as [[|h]|]; destruct lo; auto.
  - pose proof (Hk p (c :: x)) as E. simpl in E. simpl.
    rewrite IH. destruct hi as [[|h]|]; destruct lo; rewrite ?E; reflexivity.
Qed.

Lemma rmatch_local {A : Type} (r : regex) :
  no_line_anchor r = true ->
  forallb (fun cs => negb (cset_mem cs sp)) (classes_of r) = true ->
  forall x p (k1 k2 : cont (A := A)),
    (forall p' x', k1 p' (x' ++ sp :: y) = k2 p' x') ->
    rmatch r p (x ++ sp :: y) k1 = rmatch r p x k2.
Proof.
  induction r as [cs|cs lo hi|r1 IH1 r2 IH2|r1 IH1 r2 IH2| | |];
    simpl; intros Ha Hc x p k1 k2 Hk; try discriminate.
  - rewrite andb_true_r in Hc. apply negb_true_iff in Hc.
    destruct x as [|c x]; simpl; [now rewrite Hc|].
    destruct (cset_mem cs c); [apply (Hk (Some c) x)|reflexivity].
  - rewrite andb_true_r in Hc. apply negb_true_iff in Hc.
    now apply repeat_one_local.
  - apply andb_true_iff in Ha as [Ha1 Ha2].
    rewrite forallb_app in Hc. apply andb_true_iff in Hc as [Hc1 Hc2].
    apply IH1; auto.
  - apply andb_true_iff in Ha as [Ha1 Ha2].
    rewrite forallb_app in Hc. apply andb_true_iff in Hc as [Hc1 Hc2].
    rewrite (IH1 Ha1 Hc1 x p k1 k2 Hk), (IH2 Ha2 Hc2 x p k1 k2 Hk). reflexivity.
  - replace (at_boundary p (x ++ sp :: y)) with (at_boundary p x).
    + rewrite (Hk p x). reflexivity.
    + unfold at_boundary. destruct x; simpl; [now rewrite sp_not_word|reflexivity].
Qed.

Lemma match_here_local adv (r : regex) x p :
  no_line_anchor r = true ->
  forallb (fun cs => negb (cset_mem cs sp)) (classes_of r) = true ->
  match_here adv r p (x ++ sp :: y) = match_here adv r p x.
Proof.
  intros Ha Hc. unfold match_here. apply rmatch_local; auto.
  intros p' x'. rewrite !length_app. simpl length.
  replace (length x + S (length y) - (length x' + S (length y)))%nat
    with (length x - length x')%nat by lia.
  reflexivity.
Qed.

Lemma match_groups_local adv (gs : list regex) :
  Forall (fun r => no_line_anchor r = true /\
                   forallb (fun cs => negb (cset_mem cs sp)) (classes_of r) = true) gs ->
  forall i x p,
    match_groups adv gs i p (x ++ sp :: y) = match_groups adv gs i p x.
Proof.
  induction 1 as [|r gs [Ha Hc] _ IH]; intros i x p; simpl; [reflexivity|].
  rewrite (match_here_local adv r x p Ha Hc). now rewrite IH.
Qed.

End Locality.

Section PrevChar.

Context {ucd : UnicodeData}.

(** Only the word-ness of the character before the start matters. *)
Lemma repeat_one_prev {A : Type} (cs : cset) (k k' : cont (A := A)) :
  forall s lo hi p q,
    (forall p' q' s', p' = q' \/ (p' = p /\ q' = q) -> k p' s' = k' q' s') ->
    repeat_one cs lo hi p s k = repeat_one cs lo hi q s k'.
Proof.
  induction s as [|c s IH]; intros lo hi p q Hk.
  - simpl. rewrite (Hk p q []) by auto. reflexivity.
  - simpl. rewrite (Hk p q (c :: s)) by auto.
    rewrite (IH (pred lo) (option_map pred hi) (Some c) (Some c)).
    + reflexivity.
    + intros p' q' s' [E|[E1 E2]]; apply Hk; left; congruence.
Qed.

Lemma rmatch_prev {A : Type} (r : regex) :
  no_line_anchor r = true ->
  forall p q s (k k' : cont (A := A)),
    word_before p = word_before q ->
    (forall p' q' s', p' = q' \/ (p' = p /\ q' = q) -> k p' s' = k' q' s') ->
    rmatch r p s k = rmatch r q s k'.
Proof.
  induction r as [cs|cs lo hi|r1 IH1 r2 IH2|r1 IH1 r2 IH2| | |];
    simpl; intros Ha p q s k k' Hw Hk; try discriminate.
  - destruct s as [|c s]; [reflexivity|].
    destruct (cset_mem cs c); [apply Hk; now left|reflexivity].
  - now apply repeat_one_prev.
  - apply andb_true_iff in Ha as [Ha1 Ha2]. apply IH1; auto.
    intros p' q' s' [E|[E1 E2]].
    + subst q'. apply IH2; auto. intros p'' q'' s'' [E|[E1 E2]]; apply Hk; left; congruence.
    + subst p' q'. apply IH2; auto.
  - apply andb_true_iff in Ha as [Ha1 Ha2].
    rewrite (IH1 Ha1 p q s k k' Hw Hk), (IH2 Ha2 p q s k k' Hw Hk). reflexivity.
  - replace (at_boundary q s) with (at_boundary p s).
    + rewrite (Hk p q s) by auto. reflexivity.
    + unfold at_boundary. unfold word_before in Hw. now rewrite Hw.
Qed.

Lemma match_groups_prev adv (gs : list regex) p q :
  Forall (fun r => no_line_anchor r = true) gs ->
  word_before p = word_before q ->
  forall i s, match_groups adv gs i p s = match_groups adv gs i q s.
Proof.
  intros Hgs Hw. induction Hgs as [|r gs Ha _ IH]; intros i s; simpl; [reflexivity|].
  replace (match_here adv r q s) with (match_here adv r p s); [now rewrite IH|].
  unfold match_here. apply rmatch_prev; auto.
Qed.

End PrevChar.

Section MatchedEquations.

Variable here : bool -> option char -> pystr -> option (nat * nat).

Lemma scan_texts_gap :
  forall s p skip gap gap',
    map (fun f : found => snd f) (fst (scan here p s skip gap)) =
    map (fun f : found => snd f) (fst (scan here p s skip gap')).
Proof.
  induction s as [|c tl IH]; intros p skip gap gap'.
  - simpl. destruct skip; [|reflexivity].
    destruct (here false p []) as [[g n]|]; reflexivity.
  - simpl. destruct skip as [|j]; [|apply IH].
    destruct (here false p (c :: tl)) as [[g [|n]]|]; simpl.
    + reflexivity.
    + reflexivity.
    + apply IH.
Qed.

Lemma matched_nil p skip :
  matched here p [] skip =
  match skip, here false p [] with
  | O, Some _ => [[]]
  | _, _ => []
  end.
Proof.
  unfold matched. simpl. destruct skip; [|reflexivity].
  destruct (here false p []) as [[g n]|]; reflexivity.
Qed.

Lemma matched_skip p c tl j :
  matched here p (c :: tl) (S j) = matched here (Some c) tl j.
Proof. reflexivity. Qed.

Lemma matched_here p c tl :
  matched here p (c :: tl) 0 =
  match here false p (c :: tl) with
  | Some (_, S n) => firstn (S n) (c :: tl) :: matched here (Some c) tl n
  | Some (_, O) =>
      [] :: match here true p (c :: tl) with
            | Some (_, S n') =>
                firstn (S n') (c :: tl) :: matched here (Some c) tl n'
            | _ => matched here (Some c) tl 0
            end
  | None => matched here (Some c) tl 0
  end.
Proof.
  unfold matched. simpl.
  destruct (here false p (c :: tl)) as [[g [|n]]|]; simpl.
  - f_equal. destruct (here true p (c :: tl)) as [[g' [|n']]|]; simpl;
      try reflexivity; apply scan_texts_gap.
  - reflexivity.
  - apply scan_texts_gap.
Qed.

End MatchedEquations.

Section WhitespaceLocality.

Context {ucd : UnicodeData}.

Hypothesis space_not_word :
  forall c, Py_UNICODE_ISSPACE c = true -> is_word c = false.

Lemma space_not_decimal c :
  Py_UNICODE_ISDECIMAL c = true -> Py_UNICODE_ISSPACE c = false.
Proof.
  intros H. destruct (Py_UNICODE_ISSPACE c) eqn:E; [|reflexivity].
  pose proof (space_not_word c E) as W.
  rewrite (decimal_is_word c H) in W. discriminate.
Qed.

Lemma word_patterns_ok :
  Forall (fun r => no_line_anchor r = true /\
                   forallb class_space_free (classes_of r) = true /\
                   (1 <= min_width r)%nat) word_patterns.
Proof.
  unfold word_patterns, token_pattern, patterns. cbn [map snd firstn].
  repeat (constructor; [split; [reflexivity|split; [reflexivity|simpl; lia]]|]).
  constructor.
Qed.

Lemma word_patterns_local sp :
  Py_UNICODE_ISSPACE sp = true ->
  Forall (fun r => no_line_anchor r = true /\
                   forallb (fun cs => negb (cset_mem cs sp)) (classes_of r) = true)
         word_patterns.
Proof.
  intros Hsp. eapply Forall_impl; [|apply word_patterns_ok].
  intros r (Ha & Hc & _). split; [exact Ha|].
  rewrite forallb_forall in *. intros cs Hin. apply negb_true_iff.
  destruct (cset_mem cs sp) eqn:E; [|reflexivity].
  rewrite (class_space_free_sound space_not_decimal cs sp (Hc cs Hin) E) in Hsp.
  discriminate.
Qed.

Lemma match_groups_app adv (l1 l2 : list regex) :
  forall i p s,
    match_groups adv (l1 ++ l2) i p s =
    match match_groups adv l1 i p s with
    | Some x => Some x
    | None => match_groups adv l2 (i + length l1) p s
    end.
Proof.
  induction l1 as [|r l1 IH]; intros i p s; simpl.
  - now rewrite Nat.add_0_r.
  - destruct (match_here adv r p s); [reflexivity|].
    rewrite IH. now rewrite Nat.add_succ_r.
Qed.

Lemma token_here_words adv p s :
  token_here adv p s =
  match word_here adv p s with
  | Some x => Some x
  | None => match match_here adv pat_whitespace p s with
            | Some n => Some (8%nat, n)
            | None => None
            end
  end.
Proof.
  unfold token_here, word_here.
  change token_pattern with (word_patterns ++ [pat_whitespace]).
  rewrite match_groups_app.
  destruct (match_groups adv word_patterns 0 p s); [reflexivity|].
  simpl. now destruct (match_here adv pat_whitespace p s).
Qed.

Lemma word_here_sound adv p s g n :
  word_here adv p s = Some (g, n) ->
  exists c tl, s = c :: tl /\ Py_UNICODE_ISSPACE c = false /\ (1 <= n <= length s)%nat.
Proof.
  unfold word_here. intros H.
  destruct (match_groups_sound _ _ _ _ _ _ _ H) as (_ & r & Hr & Hm).
  apply nth_error_In in Hr.
  destruct (proj1 (Forall_forall _ _) word_patterns_ok r Hr) as (_ & Hc & Hw).
  destruct (match_here_sound _ _ _ _ _ Hm) as (pre & s' & -> & M & -> & _).
  pose proof (matches_min_width _ _ _ _ M) as Hlen.
  pose proof (matches_classes _ _ _ _ M) as Hcl.
  destruct pre as [|c pre]; [simpl in Hlen; lia|].
  exists c, (pre ++ s'). split; [reflexivity|].
  split.
  - inversion Hcl as [|? ? (cs & Hin & Hmem) _]; subst.
    rewrite forallb_forall in Hc.
    exact (class_space_free_sound space_not_decimal cs c (Hc cs Hin) Hmem).
  - rewrite length_app. simpl. lia.
Qed.

Lemma word_here_space adv p c tl :
  Py_UNICODE_ISSPACE c = true -> word_here adv p (c :: tl) = None.
Proof.
  intros Hc. destruct (word_here adv p (c :: tl)) as [[g n]|] eqn:E; [|reflexivity].
  destruct (word_here_sound _ _ _ _ _ E) as (c' & tl' & [= <- <-] & Hs & _).
  congruence.
Qed.

Lemma word_here_nil adv p : word_here adv p [] = None.
Proof.
  destruct (word_here adv p []) as [[g n]|] eqn:E; [|reflexivity].
  destruct (word_here_sound _ _ _ _ _ E) as (c' & tl' & Hnil & _). discriminate.
Qed.

Lemma token_here_nil adv p : token_here adv p [] = None.
Proof.
  destruct (token_here adv p []) as [[g n]|] eqn:E; [|reflexivity].
  apply token_here_sound in E. destruct E as [_ E]. now rewrite firstn_nil in E.
Qed.

Lemma whitespace_match adv p s n :
  match_here adv pat_whitespace p s = Some n ->
  (1 <= n)%nat /\ blank (firstn n s) = true.
Proof.
  intros H. destruct (match_here_firstn _ _ _ _ _ H) as (s' & _ & M & Hl).
  remember (firstn n s) as m eqn:Em. clear Em.
  unfold pat_whitespace, plus in M.
  inversion M as [|cs lo hi p0 pre0 s0 Hall Hlo _| | | | | |]; subst.
  split; [lia|]. unfold blank. rewrite forallb_forall in *.
  intros c Hin. rewrite <- space_mem. auto.
Qed.

Lemma kept_blank (m : pystr) : m <> [] -> blank m = true -> kept m = false.
Proof.
  intros Hne Hb. unfold kept. now rewrite pure_whitespace_complete.
Qed.

(** The whitespace branch adds no kept text: the kept texts of the scan
    with the combined pattern are those of the scan with the other
    branches. *)
Lemma kept_matched_words :
  forall s p k8 k9,
    k8 = k9 \/ (k8 = 0%nat /\ blank (firstn k9 s) = true) ->
    filter kept (matched token_here p s k9) = filter kept (matched word_here p s k8).
Proof.
  induction s as [|c tl IH]; intros p k8 k9 Hk.
  - rewrite !matched_nil, token_here_nil, word_here_nil.
    now destruct k8, k9.
  - destruct k9 as [|j].
    + assert (k8 = 0%nat) by (destruct Hk as [->|[-> _]]; reflexivity). subst k8.
      rewrite !matched_here, token_here_words.
      destruct (word_here false p (c :: tl)) as [[g n]|] eqn:Ew.
      * destruct (word_here_sound _ _ _ _ _ Ew) as (_ & _ & _ & _ & Hn & _).
        destruct n as [|n]; [lia|]. cbn [filter].
        rewrite (IH (Some c) n n) by auto. reflexivity.
      * destruct (match_here false pat_whitespace p (c :: tl)) as [n|] eqn:Es.
        -- destruct (whitespace_match _ _ _ _ Es) as [Hn Hb].
           destruct n as [|n]; [lia|]. cbn [filter].
           rewrite kept_blank; [|discriminate|exact Hb].
           apply IH. right. split; [reflexivity|].
           simpl in Hb. unfold blank in *. simpl in Hb.
           now apply andb_true_iff in Hb as [_ Hb].
        -- apply IH. now left.
    + rewrite matched_skip. destruct Hk as [->|[-> Hb]].
      * rewrite matched_skip. apply IH. now left.
      * simpl in Hb. unfold blank in Hb. simpl in Hb.
        apply andb_true_iff in Hb as [Hc Hb].
        rewrite matched_here, (word_here_space false p c tl Hc).
        apply IH. right. split; [reflexivity|exact Hb].
Qed.

Lemma matched_words_app (sp : char) (y : pystr) :
  Py_UNICODE_ISSPACE sp = true ->
  forall x p skip,
    (skip <= length x)%nat ->
    matched word_here p (x ++ sp :: y) skip =
    matched word_here p x skip ++ matched word_here (Some sp) y 0.
Proof.
  intros Hsp. induction x as [|c x IH]; intros p skip Hs.
  - simpl in Hs. assert (skip = 0%nat) by lia. subst skip.
    simpl app. rewrite matched_here, (word_here_space false p sp y Hsp).
    now rewrite matched_nil, word_here_nil.
  - destruct skip as [|j].
    + change ((c :: x) ++ sp :: y) with (c :: x ++ sp :: y).
      rewrite !matched_here.
      replace (word_here false p (c :: x ++ sp :: y)) with (word_here false p (c :: x)).
      * destruct (word_here false p (c :: x)) as [[g n]|] eqn:Ew.
        -- destruct (word_here_sound _ _ _ _ _ Ew) as (_ & _ & _ & _ & Hn1 & Hn2).
           destruct n as [|n]; [lia|]. simpl in Hn2.
           rewrite (IH (Some c) n) by lia. simpl. f_equal. f_equal.
           rewrite firstn_app. replace (n - length x)%nat with 0%nat by lia.
           now rewrite firstn_O, app_nil_r.
        -- apply IH. lia.
      * symmetry. unfold word_here.
        apply (match_groups_local sp y (space_not_word sp Hsp) false word_patterns
                 (word_patterns_local sp Hsp) 0%nat (c :: x) p).
    + change ((c :: x) ++ sp :: y) with (c :: x ++ sp :: y).
      rewrite !matched_skip. apply IH. simpl in Hs. lia.
Qed.

Lemma matched_words_prev (sp : char) (y : pystr) :
  Py_UNICODE_ISSPACE sp = true ->
  matched word_here (Some sp) y 0 = matched word_here None y 0.
Proof.
  intros Hsp.
  assert (Hp : forall adv s, word_here adv (Some sp) s = word_here adv None s).
  { intros adv s. unfold word_here. apply match_groups_prev.
    - eapply Forall_impl; [|apply word_patterns_ok]. now intros r (Ha & _).
    - simpl. now apply space_not_word. }
  destruct y as [|c tl].
  - now rewrite !matched_nil, !word_here_nil.
  - rewrite !matched_here, !Hp. reflexivity.
Qed.

Lemma tokens_of_matched (s : pystr) :
  tokens_of s = filter kept (matched word_here None s 0).
Proof.
  rewrite <- (kept_matched_words s None 0 0) by auto. reflexivity.
Qed.

Lemma tokens_of_app_space (x y : pystr) (sp : char) :
  Py_UNICODE_ISSPACE sp = true ->
  tokens_of (x ++ sp :: y) = tokens_of x ++ tokens_of y.
Proof.
  intros Hsp. rewrite !tokens_of_matched.
  rewrite (matched_words_app sp y Hsp x None 0) by lia.
  rewrite filter_app. now rewrite (matched_words_prev sp y Hsp).
Qed.

Lemma split_at_cases (f : char -> bool) (t : pystr) :
  split_at f t = [t] \/
  exists x c r,
    t = x ++ c :: r /\ f c = true /\ split_at f t = x :: split_at f r.
Proof.
  induction t as [|a t IH]; simpl; [now left|].
  destruct (f a) eqn:Ha.
  - right. exists [], a, t. auto.
  - destruct IH as [E|(x & c & r & -> & Hc & E)]; rewrite E.
    + now left.
    + right. exists (a :: x), c, r. auto.
Qed.

Lemma tokens_of_chunks (t : pystr) :
  tokens_of t = flat_map tokens_of (split_at Py_UNICODE_ISSPACE t).
Proof.
  remember (length t) as n eqn:En. revert t En.
  induction n as [n IH] using lt_wf_ind. intros t En.
  destruct (split_at_cases Py_UNICODE_ISSPACE t) as [E|(x & c & r & -> & Hc & E)];
    rewrite E; simpl.
  - now rewrite app_nil_r.
  - rewrite (tokens_of_app_space x r c Hc). f_equal.
    apply (IH (length r)); [|reflexivity].
    rewrite En, length_app. simpl. lia.
Qed.

End WhitespaceLocality.

(** X23: where no whitespace character of the Unicode table is a word
    character, tokenization is local to the text between whitespace:
    the tokens of a text cut at a whitespace character are the tokens
    of the part before it followed by those of the part after it. *)
Theorem word_tokenize_app_space (ucd : UnicodeData) (x y : pystr) (sp : char) :
  (forall c, Py_UNICODE_ISSPACE c = true -> is_word c = false) ->
  Py_UNICODE_ISSPACE sp = true ->
  exists tx ty,
    word_tokenize x = Some tx /\ word_tokenize y = Some ty /\
    word_tokenize (x ++ sp :: y) = Some (tx ++ ty).
Proof.
  intros H Hsp. exists (tokens_of x), (tokens_of y).
  rewrite !word_tokenize_spec. repeat split.
  now rewrite (tokens_of_app_space H x y sp Hsp).
Qed.

(** X24: under the same condition the tokens of a text are the tokens
    of its whitespace-separated chunks, chunk after chunk. *)
Theorem word_tokenize_chunks (ucd : UnicodeData) (t : pystr) :
  (forall c, Py_UNICODE_ISSPACE c = true -> is_word c = false) ->
  exists tss,
    Forall2 (fun chunk ts => word_tokenize chunk = Some ts)
            (split_at Py_UNICODE_ISSPACE t) tss /\
    word_tokenize t = Some (concat tss).
Proof.
  intros H. exists (map tokens_of (split_at Py_UNICODE_ISSPACE t)). split.
  - induction (split_at Py_UNICODE_ISSPACE t); simpl; constructor; auto.
    apply word_tokenize_spec.
  - rewrite word_tokenize_spec, (tokens_of_chunks H t). now rewrite flat_map_concat_map.
Qed.

(** ** Simple words are single tokens *)

Section SimpleWords.

Context {ucd : UnicodeData}.

Hypothesis space_not_word :
  forall c, Py_UNICODE_ISSPACE c = true -> is_word c = false.

Lemma re_match_false_here r s :
  re_match r s = false -> match_here false r None s = None.
Proof.
  unfold re_match. now destruct (match_here false r None s).
Qed.

(** A greedy repetition over a text wholly in its class takes it all. *)
Lemma repeat_one_all {A : Type} (cs : cset) (k : cont (A := A)) :
  forall w lo p,
    forallb (cset_mem cs) w = true -> (lo <= length w)%nat ->
    k (advance p w) [] <> None ->
    repeat_one cs lo None p w k = k (advance p w) [].
Proof.
  induction w as [|c w IH]; intros lo p Hw Hlo Hk.
  - simpl in *. now replace lo with 0%nat by lia.
  - simpl in Hw. apply andb_true_iff in Hw as [Hc Hw]. simpl. rewrite Hc.
    rewrite IH; auto; [|simpl in Hlo; lia].
    simpl in Hk. now destruct (k (advance (Some c) w) []).
Qed.

Lemma plus_all (cs : cset) (w : pystr) :
  w <> [] -> forallb (cset_mem cs) w = true ->
  match_here false (plus cs) None w = Some (length w).
Proof.
  intros Hne Hw. unfold match_here, plus. cbn [rmatch].
  rewrite repeat_one_all; auto.
  - simpl. now rewrite Nat.sub_0_r.
  - destruct w; [contradiction|simpl; lia].
  - simpl. discriminate.
Qed.

Lemma integer_all (w : pystr) :
  w <> [] -> forallb Py_UNICODE_ISDECIMAL w = true ->
  match_here false pat_integer None w = Some (length w).
Proof.
  intros Hne Hw.
  assert (Hword : forall c, In c w -> is_word c = true).
  { intros c Hin. apply decimal_is_word. exact (proj1 (forallb_forall _ _) Hw c Hin). }
  unfold match_here, pat_integer, cat, plus. cbn [fold_right rmatch].
  assert (Hb : at_boundary None w = true).
  { destruct w as [|c w]; [contradiction|]. unfold at_boundary. simpl.
    rewrite (Hword c); [reflexivity|now left]. }
  rewrite Hb.
  assert (He : at_boundary (advance None w) [] = true).
  { destruct (advance_last None w Hne) as (d & Hin & ->).
    unfold at_boundary. now rewrite (Hword d Hin). }
  rewrite repeat_one_all.
  - rewrite He. simpl. now rewrite Nat.sub_0_r.
  - rewrite forallb_forall in *. intros c Hin. rewrite digit_mem. auto.
  - destruct w; [contradiction|simpl; lia].
  - rewrite He. simpl. discriminate.
Qed.

Lemma matched_skip_all (s : pystr) :
  forall p, matched token_here p s (length s) = [].
Proof.
  induction s as [|c s IH]; intros p.
  - rewrite matched_nil. simpl. now rewrite token_here_nil.
  - simpl length. rewrite matched_skip. apply IH.
Qed.

Lemma tokens_of_whole (w : pystr) (g : nat) :
  w <> [] -> kept w = true ->
  token_here false None w = Some (g, length w) ->
  tokens_of w = [w].
Proof.
  intros Hne Hk H. change (tokens_of w) with (filter kept (matched token_here None w 0)).
  destruct w as [|c w]; [contradiction|].
  rewrite matched_here, H. change (length (c :: w)) with (S (length w)).
  cbv beta iota. rewrite matched_skip_all.
  change (firstn (S (length w)) (c :: w)) with (c :: firstn (length w) w).
  rewrite firstn_all. simpl. now rewrite Hk.
Qed.

Lemma kept_head (c : char) (w : pystr) :
  Py_UNICODE_ISSPACE c = false -> kept (c :: w) = true.
Proof.
  intros Hc. unfold kept.
  destruct (re_match pure_whitespace (c :: w)) eqn:E; [|reflexivity].
  apply pure_whitespace_sound in E. simpl in E. rewrite Hc in E. discriminate.
Qed.

Lemma letters_gujarati_kept_ranges c :
  is_ascii_letter c = true \/ is_gujarati c = true -> kept_ranges c = true.
Proof.
  unfold kept_ranges. intros [H|H]; rewrite H; [now rewrite orb_true_r|reflexivity].
Qed.

Lemma tokens_of_simple_word (w : pystr) : simple_word w -> tokens_of w = [w].
Proof.
  intros (Hne & [Hl|[Hd|(Hg & c & tl & -> & Hc)]]).
  - (* letters *)
    destruct w as [|c tl]; [contradiction|].
    pose proof Hl as Hl'. simpl in Hl'. apply andb_true_iff in Hl' as [Hc _].
    apply (tokens_of_whole _ 7); auto.
    + apply kept_head, kept_ranges_not_space, letters_gujarati_kept_ranges. now left.
    + unfold token_here, token_pattern, patterns. cbn [map snd match_groups].
      rewrite (re_match_false_here pat_email)
        by (apply (re_match_needs_outside is_ascii_letter); auto).
      rewrite (re_match_false_here pat_url)
        by (apply (re_match_needs_outside is_ascii_letter); auto).
      rewrite (re_match_false_here pat_decimal_number)
        by (apply (re_match_needs_outside is_ascii_letter); auto).
      rewrite (re_match_false_here pat_integer).
      2:{ destruct (re_match pat_integer (c :: tl)) eqn:E; [|reflexivity].
          destruct (re_match_numeric pat_integer _ eq_refl E) as (c' & tl' & [= <- <-] & Hd).
          rewrite (letter_not_decimal c Hc) in Hd. discriminate. }
      rewrite (re_match_false_here pat_date)
        by (apply (re_match_needs_outside is_ascii_letter); auto).
      rewrite (re_match_false_here pat_punctuation).
      2:{ rewrite re_match_punctuation. destruct (is_punctuation c) eqn:Hp; [|reflexivity].
          rewrite (punctuation_not_letter c Hp) in Hc. discriminate. }
      rewrite (re_match_false_here pat_gujarati_word)
        by (rewrite re_match_gujarati_word; now apply letter_not_gujarati).
      unfold pat_english_word. rewrite plus_all; auto.
      rewrite forallb_forall in *. intros x Hx. rewrite letter_mem. auto.
  - (* decimal digits *)
    destruct w as [|c tl]; [contradiction|].
    pose proof Hd as Hd'. simpl in Hd'. apply andb_true_iff in Hd' as [Hc _].
    apply (tokens_of_whole _ 3); auto.
    + apply kept_head. now apply (space_not_decimal space_not_word).
    + unfold token_here, token_pattern, patterns. cbn [map snd match_groups].
      rewrite (re_match_false_here pat_email)
        by (apply (re_match_needs_outside Py_UNICODE_ISDECIMAL); auto).
      rewrite (re_match_false_here pat_url)
        by (apply (re_match_needs_outside Py_UNICODE_ISDECIMAL); auto).
      rewrite (re_match_false_here pat_decimal_number)
        by (apply (re_match_needs_outside Py_UNICODE_ISDECIMAL); auto).
      now rewrite integer_all.
  - (* Gujarati block *)
    pose proof Hg as Hg'. simpl in Hg'. apply andb_true_iff in Hg' as [Hgc _].
    apply (tokens_of_whole _ 6); auto.
    + apply kept_head, kept_ranges_not_space, letters_gujarati_kept_ranges. now right.
    + unfold token_here, token_pattern, patterns. cbn [map snd match_groups].
      rewrite (re_match_false_here pat_email)
        by (apply (re_match_needs_outside is_gujarati); auto).
      rewrite (re_match_false_here pat_url)
        by (apply (re_match_needs_outside is_gujarati); auto).
      rewrite (re_match_false_here pat_decimal_number)
        by (apply (re_match_needs_outside is_gujarati); auto).
      rewrite (re_match_false_here pat_integer).
      2:{ destruct (re_match pat_integer (c :: tl)) eqn:E; [|reflexivity].
          destruct (re_match_numeric pat_integer _ eq_refl E) as (c' & tl' & [= <- <-] & Hd).
          rewrite Hc in Hd. discriminate. }
      rewrite (re_match_false_here pat_date)
        by (apply (re_match_needs_outside is_gujarati); auto).
      rewrite (re_match_false_here pat_punctuation).
      2:{ rewrite re_match_punctuation. destruct (is_punctuation c) eqn:Hp; [|reflexivity].
          rewrite (punctuation_not_gujarati c Hp) in Hgc. discriminate. }
      unfold pat_gujarati_word. rewrite plus_all; auto.
      rewrite forallb_forall in *. intros x Hx. rewrite gujarati_mem. auto.
Qed.

Lemma tokens_of_nil : tokens_of [] = [].
Proof.
  change (tokens_of []) with (filter kept (matched token_here None [] 0)).
  now rewrite matched_nil, token_here_nil.
Qed.

Lemma tokens_of_simple_chunks (chunks : list pystr) :
  Forall (fun chunk => chunk = [] \/ simple_word chunk) chunks ->
  flat_map tokens_of chunks = filter truthy chunks.
Proof.
  induction 1 as [|ch chunks [->|Hs] _ IH]; cbn [flat_map filter].
  - reflexivity.
  - now rewrite tokens_of_nil.
  - rewrite (tokens_of_simple_word ch Hs), IH.
    destruct Hs as [Hne _]. destruct ch; [contradiction|reflexivity].
Qed.

End SimpleWords.

(** X25: where no whitespace character of the Unicode table is a word
    character, a word of ASCII letters only, of decimal digits only, or
    of characters of the Gujarati block not starting with a decimal
    digit is returned by [word_tokenize] as one token. *)
Theorem word_tokenize_simple_word (ucd : UnicodeData) (w : pystr) :
  (forall c, Py_UNICODE_ISSPACE c = true -> is_word c = false) ->
  simple_word w -> word_tokenize w = Some [w].
Proof.
  intros H Hw. rewrite word_tokenize_spec. f_equal.
  now apply tokens_of_simple_word.
Qed.

(** X26: under the same condition, a text whose whitespace-separated
    chunks are such words is tokenized into exactly those words, in
    order. *)
Theorem word_tokenize_simple_text (ucd : UnicodeData) (t : pystr) :
  (forall c, Py_UNICODE_ISSPACE c = true -> is_word c = false) ->
  Forall (fun chunk => chunk = [] \/ simple_word chunk)
         (split_at Py_UNICODE_ISSPACE t) ->
  word_tokenize t = Some (filter truthy (split_at Py_UNICODE_ISSPACE t)).
Proof.
  intros H Hc. rewrite word_tokenize_spec, (tokens_of_chunks H t). f_equal.
  now apply tokens_of_simple_chunks.
Qed.

(** ** Numbers and dates *)

Section NumbersAndDates.

Context {ucd : UnicodeData}.

Lemma needs_class_sound (ok : cset -> bool) (A : char -> bool) :
  (forall cs c, ok cs = true -> cset_mem cs c = true -> A c = false) ->
  forall r p pre s',
    matches r p pre s' -> needs_class ok r = true ->
    exists c, In c pre /\ A c = false.
Proof.
  intros Hok. induction 1 as [cs p c s' Hc|cs lo hi p pre s' Hall Hlo Hhi
                 |r1 r2 p pre1 pre2 s' M1 IH1 M2 IH2
                 |r1 r2 p pre s' M IH|r1 r2 p pre s' M IH
                 |p s' Hb|s'|p s' He]; simpl; intros H; try discriminate.
  - exists c. split; [now left|eauto].
  - destruct lo as [|lo]; [discriminate|].
    destruct pre as [|c pre]; [simpl in Hlo; lia|].
    simpl in Hall. apply andb_true_iff in Hall as [Hc _].
    exists c. split; [now left|eauto].
  - apply orb_true_iff in H as [H|H].
    + destruct (IH1 H) as (c & Hin & Hc). exists c. split; auto.
      apply in_or_app. now left.
    + destruct (IH2 H) as (c & Hin & Hc). exists c. split; auto.
      apply in_or_app. now right.
  - apply andb_true_iff in H as [H _]. auto.
  - apply andb_true_iff in H as [_ H]. auto.
Qed.

Lemma match_here_needs_class (ok : cset -> bool) (A : char -> bool) adv r p s :
  (forall cs c, ok cs = true -> cset_mem cs c = true -> A c = false) ->
  needs_class ok r = true -> forallb A s = true ->
  match_here adv r p s = None.
Proof.
  intros Hok Hn Hs. destruct (match_here adv r p s) as [n|] eqn:E; [|reflexivity].
  destruct (match_here_sound _ _ _ _ _ E) as (pre & s' & -> & M & _).
  destruct (needs_class_sound ok A Hok _ _ _ _ M Hn) as (c & Hin & Hc).
  rewrite forallb_forall in Hs. rewrite Hs in Hc; [discriminate|].
  apply in_or_app. now left.
Qed.

Lemma match_here_needs_outside A adv r p s :
  needs_outside A r = true -> forallb A s = true ->
  match_here adv r p s = None.
Proof.
  intros Hn Hs. destruct (match_here adv r p s) as [n|] eqn:E; [|reflexivity].
  destruct (match_here_sound _ _ _ _ _ E) as (pre & s' & -> & M & _).
  destruct (needs_outside_sound A _ _ _ _ M Hn) as (c & Hin & Hc).
  rewrite forallb_forall in Hs. rewrite Hs in Hc; [discriminate|].
  apply in_or_app. now left.
Qed.

Lemma match_here_numeric adv r p c tl :
  starts_in is_digit_class r = true -> Py_UNICODE_ISDECIMAL c = false ->
  match_here adv r p (c :: tl) = None.
Proof.
  intros Hs Hc. destruct (match_here adv r p (c :: tl)) as [n|] eqn:E; [|reflexivity].
  destruct (match_here_sound _ _ _ _ _ E) as (pre & s' & Es & M & _).
  destruct (starts_in_sound _ _ digit_class_sound _ _ _ _ M Hs) as (c' & tl' & -> & Hd).
  injection Es as <- _. congruence.
Qed.

(** A greedy repetition takes a whole run when what follows the run is
    outside its class and the rest of the expression then matches. *)
Lemma repeat_one_run {A : Type} (cs : cset) (k : cont (A := A)) (rest : pystr) :
  match rest with c :: _ => cset_mem cs c = false | [] => True end ->
  forall ds lo p,
    forallb (cset_mem cs) ds = true -> (lo <= length ds)%nat ->
    k (advance p ds) rest <> None ->
    repeat_one cs lo None p (ds ++ rest) k = k (advance p ds) rest.
Proof.
  intros Hrest. induction ds as [|c ds IH]; intros lo p Hds Hlo Hk.
  - simpl in *. replace lo with 0%nat by lia.
    destruct rest as [|c rest]; [reflexivity|]. simpl. now rewrite Hrest.
  - simpl in Hds. apply andb_true_iff in Hds as [Hc Hds]. simpl. rewrite Hc.
    rewrite IH; auto; [|simpl in Hlo; lia].
    simpl in Hk. now destruct (k (advance (Some c) ds) rest).
Qed.

Lemma separator_cases c :
  is_separator c = true -> c = chr "/" \/ c = chr "-".
Proof.
  unfold is_separator. intros H. apply orb_true_iff in H as [H|H];
    apply Z.eqb_eq in H; auto.
Qed.

Lemma separator_facts c :
  is_separator c = true ->
  Py_UNICODE_ISDECIMAL c = false /\ is_word c = false /\
  Py_UNICODE_ISSPACE c = false /\ is_punctuation c = true /\
  cset_mem (class (chars "/-")) c = true.
Proof.
  intros H. destruct (separator_cases c H) as [-> | ->]; repeat split; reflexivity.
Qed.

Lemma decimal_run_word (d : pystr) (p : option char) :
  d <> [] -> forallb Py_UNICODE_ISDECIMAL d = true ->
  word_before (advance p d) = true /\
  exists c tl, d = c :: tl /\ is_word c = true.
Proof.
  intros Hne Hd.
  assert (Hw : forall c, In c d -> is_word c = true).
  { intros c Hin. apply decimal_is_word. exact (proj1 (forallb_forall _ _) Hd c Hin). }
  split.
  - destruct (advance_last p d Hne) as (x & Hin & ->). simpl. auto.
  - destruct d as [|c tl]; [contradiction|]. exists c, tl. split; auto.
    apply Hw. now left.
Qed.

Lemma digit_forallb (d : pystr) :
  forallb Py_UNICODE_ISDECIMAL d = true -> forallb (cset_mem digit) d = true.
Proof.
  rewrite !forallb_forall. intros H c Hin. rewrite digit_mem. auto.
Qed.

(** The integer pattern on a run of digits followed by a separator or
    by nothing takes the run. *)
Lemma integer_run adv (p : option char) (d rest : pystr) :
  d <> [] -> forallb Py_UNICODE_ISDECIMAL d = true ->
  word_before p = false ->
  match rest with c :: _ => is_separator c = true | [] => True end ->
  match_here adv pat_integer p (d ++ rest) = Some (length d).
Proof.
  intros Hne Hd Hp Hrest.
  destruct (decimal_run_word d p Hne Hd) as (Hlast & c & tl & Ed & Hc).
  unfold match_here, pat_integer, cat, plus. cbn [fold_right rmatch].
  assert (Hb : at_boundary p (d ++ rest) = true).
  { unfold at_boundary. fold (word_before p). rewrite Hp, Ed. simpl. now rewrite Hc. }
  assert (He : at_boundary (advance p d) rest = true).
  { unfold at_boundary. fold (word_before (advance p d)). rewrite Hlast.
    destruct rest as [|x rest]; [reflexivity|].
    now rewrite (proj1 (proj2 (separator_facts x Hrest))). }
  assert (Hn : (length (d ++ rest) - length rest)%nat = length d)
    by (rewrite length_app; lia).
  rewrite Hb, repeat_one_run.
  - rewrite He, Hn. destruct d; [contradiction|]. simpl. now rewrite andb_false_r.
  - destruct rest as [|x rest]; [exact I|].
    rewrite digit_mem. exact (proj1 (separator_facts x Hrest)).
  - now apply digit_forallb.
  - rewrite Ed. simpl. lia.
  - rewrite He, Hn. destruct d; [contradiction|]. simpl. rewrite andb_false_r. discriminate.
Qed.

(** The decimal pattern on digits, a dot and digits takes them all. *)
Lemma decimal_whole (p : option char) (d1 d2 : pystr) :
  d1 <> [] -> d2 <> [] ->
  forallb Py_UNICODE_ISDECIMAL d1 = true -> forallb Py_UNICODE_ISDECIMAL d2 = true ->
  word_before p = false ->
  match_here false pat_decimal_number p (d1 ++ chr "." :: d2) =
  Some (length (d1 ++ chr "." :: d2)).
Proof.
  intros H1 H2 Hd1 Hd2 Hp.
  destruct (decimal_run_word d1 p H1 Hd1) as (_ & c & tl & Ed & Hc).
  destruct (decimal_run_word d2 (Some (chr ".")) H2 Hd2) as (Hlast & _).
  unfold match_here, pat_decimal_number, cat, plus, lit. cbn [fold_right rmatch].
  assert (Hb : at_boundary p (d1 ++ chr "." :: d2) = true).
  { unfold at_boundary. fold (word_before p). rewrite Hp, Ed. simpl. now rewrite Hc. }
  rewrite Hb.
  set (kf := fun (_ : option char) (s' : pystr) =>
               let n := (length (d1 ++ chr "." :: d2) - length s')%nat in
               if false && Nat.eqb n 0 then None else Some n).
  set (k2 := fun (p' : option char) (s' : pystr) =>
               if at_boundary p' s' then kf p' s' else None).
  assert (E2 : repeat_one digit 1 None (Some (chr ".")) d2 k2 =
               Some (length (d1 ++ chr "." :: d2))).
  { rewrite <- (app_nil_r d2) at 1. rewrite repeat_one_run.
    - unfold k2, at_boundary. fold (word_before (advance (Some (chr ".")) d2)).
      rewrite Hlast. unfold kf. simpl. now rewrite Nat.sub_0_r.
    - exact I.
    - now apply digit_forallb.
    - destruct d2; [contradiction|simpl; lia].
    - unfold k2, at_boundary. fold (word_before (advance (Some (chr ".")) d2)).
      rewrite Hlast. unfold kf. simpl. discriminate. }
  rewrite repeat_one_run.
  - change (cset_mem (class [CChar (chr ".")]) (chr ".")) with true.
    cbv iota. exact E2.
  - rewrite digit_mem. reflexivity.
  - now apply digit_forallb.
  - rewrite Ed. simpl. lia.
  - change (cset_mem (class [CChar (chr ".")]) (chr ".")) with true.
    cbv beta iota.
    change (repeat_one digit 1 None (Some (chr ".")) d2 k2 <> None).
    rewrite E2. discriminate.
Qed.

Lemma matched_after_skip here (d rest : pystr) :
  forall p, matched here p (d ++ rest) (length d) = matched here (advance p d) rest 0.
Proof.
  induction d as [|c d IH]; intros p; [reflexivity|].
  simpl app. simpl length. rewrite matched_skip. apply IH.
Qed.

Lemma matched_token (g : nat) (p : option char) (d rest : pystr) :
  d <> [] ->
  token_here false p (d ++ rest) = Some (g, length d) ->
  matched token_here p (d ++ rest) 0 = d :: matched token_here (advance p d) rest 0.
Proof.
  intros Hne H. destruct d as [|c d]; [contradiction|].
  change ((c :: d) ++ rest) with (c :: d ++ rest) in *.
  rewrite matched_here, H. change (length (c :: d)) with (S (length d)).
  cbv beta iota. rewrite matched_after_skip. simpl. f_equal. f_equal.
  rewrite firstn_app, Nat.sub_diag, firstn_all, firstn_O. apply app_nil_r.
Qed.

End NumbersAndDates.

Section NumberAndDateTokens.

Context {ucd : UnicodeData}.

Lemma forallb_weaken {A : Type} (f g : A -> bool) (l : list A) :
  (forall x, f x = true -> g x = true) ->
  forallb f l = true -> forallb g l = true.
Proof.
  intros H. rewrite !forallb_forall. auto.
Qed.

Lemma at_boundary_end (p : option char) : at_boundary p [] = word_before p.
Proof. unfold at_boundary, word_before. apply xorb_false_r. Qed.

Lemma letters_or_literal_sound cs c :
  literal_outside decimal_or_dot cs || is_letter_class cs = true ->
  cset_mem cs c = true -> decimal_or_dot c = false.
Proof.
  intros H Hm. apply orb_true_iff in H as [H|H].
  - eapply literal_outside_sound; eauto.
  - destruct cs as [n its]. unfold is_letter_class in H.
    destruct n; [discriminate|].
    destruct its as [|[x|a b| |] its]; try discriminate.
    destruct its as [|[x|a' b'| |] its]; try discriminate.
    destruct its; [|discriminate].
    repeat (apply andb_true_iff in H as [H ?]).
    repeat match goal with E : (_ =? _) = true |- _ => apply Z.eqb_eq in E; subst end.
    assert (Hl : is_ascii_letter c = true).
    { unfold cset_mem in Hm. simpl in Hm. rewrite orb_false_r in Hm.
      unfold is_ascii_letter. now rewrite orb_comm. }
    unfold decimal_or_dot. rewrite (letter_not_decimal c Hl). simpl.
    apply Z.eqb_neq. unfold is_ascii_letter, in_range in Hl.
    repeat rewrite orb_true_iff in Hl. repeat rewrite andb_true_iff in Hl.
    repeat rewrite Z.leb_le in Hl. change (chr ".") with 46.
    change (chr "A") with 65 in Hl. change (chr "a") with 97 in Hl. lia.
Qed.

Lemma decimal_dot_chars (d1 d2 : pystr) :
  forallb Py_UNICODE_ISDECIMAL d1 = true -> forallb Py_UNICODE_ISDECIMAL d2 = true ->
  forallb decimal_or_dot (d1 ++ chr "." :: d2) = true.
Proof.
  intros H1 H2. rewrite forallb_app. simpl.
  rewrite (forallb_weaken Py_UNICODE_ISDECIMAL decimal_or_dot d1), (forallb_weaken Py_UNICODE_ISDECIMAL decimal_or_dot d2);
    auto; unfold decimal_or_dot; intros x ->; reflexivity.
Qed.

Lemma date_chars (a b c : pystr) (s1 s2 : char) :
  forallb Py_UNICODE_ISDECIMAL a = true -> forallb Py_UNICODE_ISDECIMAL b = true ->
  forallb Py_UNICODE_ISDECIMAL c = true ->
  is_separator s1 = true -> is_separator s2 = true ->
  forallb decimal_or_separator c = true /\
  forallb decimal_or_separator (s2 :: c) = true /\
  forallb decimal_or_separator (b ++ s2 :: c) = true /\
  forallb decimal_or_separator (s1 :: b ++ s2 :: c) = true /\
  forallb decimal_or_separator (a ++ s1 :: b ++ s2 :: c) = true.
Proof.
  intros Ha Hb Hc H1 H2.
  assert (W : forall d, forallb Py_UNICODE_ISDECIMAL d = true ->
                        forallb decimal_or_separator d = true).
  { intros d. apply forallb_weaken. unfold decimal_or_separator. now intros x ->. }
  assert (S1 : decimal_or_separator s1 = true)
    by (unfold decimal_or_separator; rewrite H1; apply orb_true_r).
  assert (S2 : decimal_or_separator s2 = true)
    by (unfold decimal_or_separator; rewrite H2; apply orb_true_r).
  assert (E1 : forallb decimal_or_separator (s2 :: c) = true)
    by (simpl; now rewrite S2, W).
  assert (E2 : forallb decimal_or_separator (b ++ s2 :: c) = true)
    by (now rewrite forallb_app, W, E1).
  assert (E3 : forallb decimal_or_separator (s1 :: b ++ s2 :: c) = true)
    by (simpl; simpl in E2; now rewrite S1, E2).
  repeat split; auto. rewrite forallb_app, W; auto.
Qed.

(** The shape of both alternatives of the date pattern. *)
Lemma date_matches (lo1 hi1 lo2 hi2 lo3 hi3 : nat) (a b c : pystr) (s1 s2 : char) :
  forallb Py_UNICODE_ISDECIMAL a = true -> forallb Py_UNICODE_ISDECIMAL b = true ->
  forallb Py_UNICODE_ISDECIMAL c = true ->
  is_separator s1 = true -> is_separator s2 = true ->
  (1 <= lo1 <= length a)%nat -> (length a <= hi1)%nat ->
  (lo2 <= length b <= hi2)%nat ->
  (1 <= lo3 <= length c)%nat -> (length c <= hi3)%nat ->
  matches
    (cat [At_boundary; Repeat digit lo1 (Some hi1); In_ (class (chars "/-"));
          Repeat digit lo2 (Some hi2); In_ (class (chars "/-"));
          Repeat digit lo3 (Some hi3)]
         At_boundary)
    None (a ++ s1 :: b ++ s2 :: c) [].
Proof.
  intros Ha Hb Hc H1 H2 La La' Lb Lc Lc'. unfold cat. cbn [fold_right].
  replace (a ++ s1 :: b ++ s2 :: c)
    with ([] ++ a ++ [s1] ++ b ++ [s2] ++ c ++ [])
    by (cbn [app]; now rewrite app_nil_r).
  apply M_Cat.
  { apply M_boundary. destruct a as [|x a]; [simpl in La; lia|].
    simpl in Ha. apply andb_true_iff in Ha as [Hx _].
    unfold at_boundary. simpl. now rewrite (decimal_is_word x Hx). }
  apply M_Cat.
  { apply M_Repeat; [now apply digit_forallb|lia|]. intros h [= <-]. lia. }
  apply M_Cat.
  { apply M_In. exact (proj2 (proj2 (proj2 (proj2 (separator_facts s1 H1))))). }
  apply M_Cat.
  { apply M_Repeat; [now apply digit_forallb|lia|]. intros h [= <-]. lia. }
  apply M_Cat.
  { apply M_In. exact (proj2 (proj2 (proj2 (proj2 (separator_facts s2 H2))))). }
  apply M_Cat.
  { apply M_Repeat; [now apply digit_forallb|lia|]. intros h [= <-]. lia. }
  apply M_boundary. rewrite at_boundary_end.
  apply decimal_run_word; auto. intros ->. simpl in Lc. lia.
Qed.

Lemma matched_digit_run (p : option char) (d rest : pystr) :
  d <> [] -> forallb Py_UNICODE_ISDECIMAL d = true ->
  word_before p = false ->
  forallb decimal_or_separator (d ++ rest) = true ->
  match rest with x :: _ => is_separator x = true | [] => True end ->
  matched token_here p (d ++ rest) 0 = d :: matched token_here (advance p d) rest 0.
Proof.
  intros Hne Hd Hp HA Hrest. apply (matched_token 3); auto.
  unfold token_here, token_pattern, patterns. cbn [map snd match_groups].
  rewrite (match_here_needs_outside decimal_or_separator false pat_email) by auto.
  rewrite (match_here_needs_outside decimal_or_separator false pat_url) by auto.
  rewrite (match_here_needs_outside decimal_or_separator false pat_decimal_number)
    by auto.
  now rewrite integer_run.
Qed.

Lemma matched_digit_run_end (p : option char) (d : pystr) :
  d <> [] -> forallb Py_UNICODE_ISDECIMAL d = true ->
  word_before p = false ->
  forallb decimal_or_separator d = true ->
  matched token_here p d 0 = [d].
Proof.
  intros Hne Hd Hp HA.
  pose proof (matched_digit_run p d [] Hne Hd Hp) as E.
  rewrite app_nil_r in E. rewrite E; auto.
  now rewrite matched_nil, token_here_nil.
Qed.

Lemma matched_separator (p : option char) (x : char) (rest : pystr) :
  is_separator x = true ->
  forallb decimal_or_separator (x :: rest) = true ->
  matched token_here p (x :: rest) 0 = [x] :: matched token_here (Some x) rest 0.
Proof.
  intros Hx HA. destruct (separator_facts x Hx) as (Hd & _ & _ & Hp & _).
  apply (matched_token 5 p [x] rest); [discriminate|].
  unfold token_here, token_pattern, patterns. cbn [map snd match_groups].
  change ([x] ++ rest) with (x :: rest).
  rewrite (match_here_needs_outside decimal_or_separator false pat_email) by auto.
  rewrite (match_here_needs_outside decimal_or_separator false pat_url) by auto.
  rewrite (match_here_needs_outside decimal_or_separator false pat_decimal_number)
    by auto.
  rewrite (match_here_numeric false pat_integer) by auto.
  rewrite (match_here_numeric false pat_date) by auto.
  unfold match_here, pat_punctuation. cbn [rmatch].
  rewrite punctuation_mem, Hp. cbv beta zeta.
  replace (length (x :: rest) - length rest)%nat with 1%nat by (cbn [length]; lia).
  reflexivity.
Qed.

Lemma decimal_run_kept (d : pystr) :
  (forall c, Py_UNICODE_ISDECIMAL c = true -> Py_UNICODE_ISSPACE c = false) ->
  d <> [] -> forallb Py_UNICODE_ISDECIMAL d = true -> kept d = true.
Proof.
  intros H Hne Hd. destruct d as [|x d]; [contradiction|].
  simpl in Hd. apply andb_true_iff in Hd as [Hx _]. apply kept_head. auto.
Qed.

End NumberAndDateTokens.

(** X27: a text of decimal digits, a dot and decimal digits is returned
    by [word_tokenize] as one token, and [classify_token] labels it
    decimal_number. *)
Theorem decimal_number_one_token (ucd : UnicodeData) (d1 d2 : pystr) :
  d1 <> [] -> d2 <> [] ->
  forallb Py_UNICODE_ISDECIMAL d1 = true -> forallb Py_UNICODE_ISDECIMAL d2 = true ->
  word_tokenize (d1 ++ chr "." :: d2) = Some [d1 ++ chr "." :: d2] /\
  classify_token (d1 ++ chr "." :: d2) = "decimal_number"%string.
Proof.
  intros H1 H2 Hd1 Hd2.
  pose proof (decimal_dot_chars d1 d2 Hd1 Hd2) as HA.
  assert (He : match_here false pat_email None (d1 ++ chr "." :: d2) = None).
  { apply (match_here_needs_class
             (fun cs => literal_outside decimal_or_dot cs || is_letter_class cs)
             decimal_or_dot);
      [intros cs x; apply letters_or_literal_sound|reflexivity|exact HA]. }
  assert (Hu : match_here false pat_url None (d1 ++ chr "." :: d2) = None).
  { apply (match_here_needs_class
             (fun cs => literal_outside decimal_or_dot cs || is_letter_class cs)
             decimal_or_dot);
      [intros cs x; apply letters_or_literal_sound|reflexivity|exact HA]. }
  pose proof (decimal_whole None d1 d2 H1 H2 Hd1 Hd2 eq_refl) as Hd.
  split.
  - rewrite word_tokenize_spec. f_equal. apply (tokens_of_whole _ 2).
    + destruct d1; discriminate.
    + unfold kept. destruct (re_match pure_whitespace (d1 ++ chr "." :: d2)) eqn:E;
        [|reflexivity].
      apply pure_whitespace_sound in E. rewrite forallb_forall in E.
      specialize (E (chr ".") (in_elt _ _ _)). discriminate E.
    + unfold token_here, token_pattern, patterns. cbn [map snd match_groups].
      now rewrite He, Hu, Hd.
  - unfold classify_token, re_match. now rewrite He, Hu, Hd.
Qed.

Lemma decimal_number_one_token_witness :
  word_tokenize (ucd := rows_only) (str "3" ++ chr "." :: str "14") =
    Some [str "3" ++ chr "." :: str "14"] /\
  classify_token (ucd := rows_only) (str "3" ++ chr "." :: str "14") =
    "decimal_number"%string.
Proof.
  apply (decimal_number_one_token rows_only (str "3") (str "14"));
    [discriminate|discriminate|reflexivity|reflexivity].
Defined.

(** X28: a token of three runs of decimal digits joined by "/" or "-",
    with one or two digits, one or two digits and two to four digits,
    or with four digits, one or two digits and one or two digits, is
    labelled date by [classify_token]. *)
Theorem classify_date (ucd : UnicodeData) (a b c : pystr) (s1 s2 : char) :
  forallb Py_UNICODE_ISDECIMAL a = true -> forallb Py_UNICODE_ISDECIMAL b = true ->
  forallb Py_UNICODE_ISDECIMAL c = true ->
  is_separator s1 = true -> is_separator s2 = true ->
  date_shape a b c ->
  classify_token (a ++ s1 :: b ++ s2 :: c) = "date"%string.
Proof.
  intros Ha Hb Hc H1 H2 Hs.
  destruct (date_chars a b c s1 s2 Ha Hb Hc H1 H2) as (_ & _ & _ & _ & HA).
  unfold classify_token.
  rewrite (re_match_needs_outside decimal_or_separator pat_email) by auto.
  rewrite (re_match_needs_outside decimal_or_separator pat_url) by auto.
  rewrite (re_match_needs_outside decimal_or_separator pat_decimal_number) by auto.
  assert (E : re_match pat_date (a ++ s1 :: b ++ s2 :: c) = true).
  { apply re_match_iff. exists (a ++ s1 :: b ++ s2 :: c), [].
    split; [now rewrite app_nil_r|]. unfold pat_date. cbv zeta.
    destruct Hs as [(La & Lb & Lc)|(La & Lb & Lc)].
    - apply M_Left. apply date_matches; auto; lia.
    - apply M_Right. apply date_matches; auto; lia. }
  now rewrite E.
Qed.

Lemma classify_date_witness :
  classify_token (ucd := rows_only) (str "2025" ++ chr "-" :: str "7" ++ chr "-" :: str "25") =
  "date"%string.
Proof.
  apply (classify_date rows_only (str "2025") (str "7") (str "25"));
    try reflexivity.
  right. simpl. lia.
Defined.

(** X29: where no decimal digit of the Unicode table is a whitespace
    character, [word_tokenize] splits three runs of decimal digits
    joined by "/" or "-" into five tokens: the runs and the separators.
    No date, whatever its digits, is returned as one token. *)
Theorem word_tokenize_splits_dates (ucd : UnicodeData) (a b c : pystr) (s1 s2 : char) :
  (forall x, decimal_elsewhere x = true -> Py_UNICODE_ISSPACE x = false) ->
  a <> [] -> b <> [] -> c <> [] ->
  forallb Py_UNICODE_ISDECIMAL a = true -> forallb Py_UNICODE_ISDECIMAL b = true ->
  forallb Py_UNICODE_ISDECIMAL c = true ->
  is_separator s1 = true -> is_separator s2 = true ->
  word_tokenize (a ++ s1 :: b ++ s2 :: c) = Some [a; [s1]; b; [s2]; c].
Proof.
  intros H Na Nb Nc Ha Hb Hc H1 H2.
  pose proof (isdecimal_not_space_elsewhere H) as Hsp.
  destruct (date_chars a b c s1 s2 Ha Hb Hc H1 H2) as (Ac & A2 & Ab & A1 & Aa).
  destruct (separator_facts s1 H1) as (_ & W1 & Sp1 & _ & _).
  destruct (separator_facts s2 H2) as (_ & W2 & Sp2 & _ & _).
  rewrite word_tokenize_spec. f_equal.
  change (tokens_of (a ++ s1 :: b ++ s2 :: c))
    with (filter kept (matched token_here None (a ++ s1 :: b ++ s2 :: c) 0)).
  rewrite matched_digit_run by auto.
  rewrite matched_separator by auto.
  rewrite matched_digit_run by auto.
  rewrite matched_separator by auto.
  rewrite matched_digit_run_end by auto.
  cbn [filter].
  rewrite (decimal_run_kept a), (decimal_run_kept b), (decimal_run_kept c) by auto.
  now rewrite (kept_head s1), (kept_head s2) by auto.
Qed.

Lemma word_tokenize_splits_dates_witness :
  word_tokenize (ucd := rows_only)
    (str "2025" ++ chr "-" :: str "7" ++ chr "-" :: str "25") =
  Some [str "2025"; [chr "-"]; str "7"; [chr "-"]; str "25"].
Proof.
  apply (word_tokenize_splits_dates rows_only (str "2025") (str "7") (str "25"));
    try reflexivity; discriminate.
Defined.

(** ** Instances for the table [rows_only] *)

Lemma rows_only_space_not_word (c : char) :
  Py_UNICODE_ISSPACE c = true -> is_word (ucd := rows_only) c = false.
Proof.
  intros H. rewrite space_rows_spec in H. unfold in_ranges in H.
  apply existsb_exists in H as ([lo hi] & Hin & Hc). cbn [fst snd] in Hc.
  assert (Ha : in_ranges alnum_rows c = false /\ (c =? chr "_") = false).
  { unfold space_rows in Hin. simpl in Hin.
    repeat (destruct Hin as [E|Hin];
            [injection E as <- <-; split;
             [eapply range_disjoint; [|exact Hc]; reflexivity
             |apply Z.eqb_neq; unfold in_range in Hc;
              apply andb_true_iff in Hc as [L1 L2]; apply Z.leb_le in L1, L2;
              change (chr "_") with 95; lia]|]).
    contradiction. }
  destruct Ha as [Ha Hu]. unfold is_word, Py_UNICODE_ISALNUM. rewrite Ha, Hu.
  now destruct (tabulated c).
Qed.

Lemma tokenize_paragraph_blank_witness :
  tokenize_paragraph (ucd := rows_only) (str "  ") =
  Some {| original_text := str "  "; sentences := [];
          total_words := 0; total_characters := len (str "  ") |}.
Proof. apply tokenize_paragraph_blank. reflexivity. Defined.

Lemma process_dataset_monotone_witness :
  exists docs more,
    process_dataset (ucd := rows_only) [Some (str "a"); Some (str "b")] 1 = Some docs /\
    process_dataset (ucd := rows_only) [Some (str "a"); Some (str "b")] 2 =
      Some (docs ++ more).
Proof. apply process_dataset_monotone. lia. Defined.

Lemma process_dataset_all_witness :
  exists docs,
    process_dataset (ucd := rows_only) [Some (str "a"); None; Some (str "b")] 5 =
      Some docs /\
    map original_text docs =
    filter (fun s => negb (blank s)) (map get_text [Some (str "a"); None; Some (str "b")]).
Proof. apply process_dataset_all. unfold len. simpl. lia. Defined.

Lemma word_tokenize_app_space_witness :
  exists tx ty,
    word_tokenize (ucd := rows_only) (str "a,") = Some tx /\
    word_tokenize (ucd := rows_only) (str "b") = Some ty /\
    word_tokenize (ucd := rows_only) (str "a," ++ chr " " :: str "b") = Some (tx ++ ty).
Proof.
  apply (word_tokenize_app_space rows_only (str "a,") (str "b") (chr " ")).
  - exact rows_only_space_not_word.
  - reflexivity.
Defined.

Lemma word_tokenize_chunks_witness :
  exists tss,
    Forall2 (fun chunk ts => word_tokenize (ucd := rows_only) chunk = Some ts)
            (split_at Py_UNICODE_ISSPACE (str "a, b")) tss /\
    word_tokenize (ucd := rows_only) (str "a, b") = Some (concat tss).
Proof.
  apply (word_tokenize_chunks rows_only (str "a, b")).
  exact rows_only_space_not_word.
Defined.

Lemma word_tokenize_simple_word_witness :
  word_tokenize (ucd := rows_only) (str "abc") = Some [str "abc"].
Proof.
  apply (word_tokenize_simple_word rows_only (str "abc")).
  - exact rows_only_space_not_word.
  - split; [discriminate|left; reflexivity].
Defined.

Lemma word_tokenize_simple_text_witness :
  word_tokenize (ucd := rows_only) (str "ab 12") =
  Some (filter truthy (split_at Py_UNICODE_ISSPACE (str "ab 12"))).
Proof.
  apply (word_tokenize_simple_text rows_only (str "ab 12")).
  - exact rows_only_space_not_word.
  - replace (split_at Py_UNICODE_ISSPACE (str "ab 12")) with [str "ab"; str "12"]
      by reflexivity.
    constructor; [right; split; [discriminate|left; reflexivity]|].
    constructor; [right; split; [discriminate|right; left; reflexivity]|].
    constructor.
Defined.
